(** * wav_3dgs: the training loop of [train.py]

    A shallow embedding of the per-iteration control logic of [training]:
    the wavelet sub-band weight schedule, the discrepancy localizer, the
    loss composition, the population-controller gating and the optimizer
    gating.

    Numbers.  Python integers are [Z].  Tensor entries and Python floats are
    exact rationals [Q]; rounding is not modelled.  The one place where the
    source can leave the finite numbers, the division of the min-max
    normalisation, is modelled on [tval], which adds the IEEE special values
    a tensor division produces. *)

From Stdlib Require Import ZArith QArith Qabs Bool List String Lia Lqa.
From Stdlib Require Import Sorted Qround Qpower Permutation.
Import ListNotations.

Local Open Scope Z_scope.

(** ** Configuration *)

(** The fields of [opt] ([OptimizationParams]) and [dataset] ([ModelParams])
    that [training] reads for its control decisions. *)
Record OptimizationParams : Type := mkOpt {
  iterations : Z;
  densify_from_iter : Z;
  densify_until_iter : Z;
  densification_interval : Z;
  opacity_reset_interval : Z;
  lambda_dssim : Q;
  optimizer_type : string
}.

(** ** Wavelet sub-band weight schedule (train.py, lines 130-139) *)

Module Schedule.

(** [progress = (iteration - densify_from_iter) /
                (densify_until_iter - densify_from_iter)], Python true division. *)
Definition progress (opt : OptimizationParams) (iteration : Z) : Q :=
  (inject_Z (iteration - densify_from_iter opt)
   / inject_Z (densify_until_iter opt - densify_from_iter opt))%Q.

Definition wavelet_weights (opt : OptimizationParams) (iteration : Z) : list Q :=
  if (densify_from_iter opt <? iteration) && (iteration <? densify_until_iter opt)
  then
    let w_l1 := (progress opt iteration * 20)%Q in
    let w_l2 := (progress opt iteration * 50)%Q in
    [w_l2; w_l1; 15%Q]
  else if densify_until_iter opt <? iteration
  then [0%Q; 0%Q; 0%Q]
  else [0%Q; 0%Q; 15%Q].

(** The schedule as the specification words it: baseline before the window,
    the linear ramp on [start, end), zero from the window end on. *)
Definition spec_wavelet_weights (opt : OptimizationParams) (iteration : Z) : list Q :=
  if iteration <? densify_from_iter opt then [0%Q; 0%Q; 15%Q]
  else if iteration <? densify_until_iter opt
  then [(50 * progress opt iteration)%Q; (20 * progress opt iteration)%Q; 15%Q]
  else [0%Q; 0%Q; 0%Q].

(** Entrywise rational equality of weight vectors. *)
Definition weights_eq (a b : list Q) : Prop := Forall2 Qeq a b.

End Schedule.

(** A configuration with the defaults of the reference implementation. *)
Definition default_opt : OptimizationParams :=
  mkOpt 30000 500 15000 100 3000 (2 # 10) "default".

(** ** Tensor values

    A tensor entry is a finite number or one of the special values a
    floating-point division can produce. *)

Inductive tval : Type :=
| Fin (q : Q)
| PInf
| NInf
| NaN.

Module TVal.

Definition is_nan (v : tval) : bool :=
  match v with NaN => true | _ => false end.

Definition is_finite (v : tval) : bool :=
  match v with Fin _ => true | _ => false end.

Definition Qltb (a b : Q) : bool := negb (Qle_bool b a).

Definition neg (v : tval) : tval :=
  match v with
  | Fin q => Fin (- q)%Q
  | PInf => NInf
  | NInf => PInf
  | NaN => NaN
  end.

Definition add (a b : tval) : tval :=
  match a, b with
  | NaN, _ | _, NaN => NaN
  | Fin x, Fin y => Fin (x + y)%Q
  | PInf, NInf | NInf, PInf => NaN
  | PInf, _ | _, PInf => PInf
  | NInf, _ | _, NInf => NInf
  end.

Definition sub (a b : tval) : tval := add a (neg b).

(** Sign of a value that is not NaN: -1, 0 or 1. *)
Definition sgn (v : tval) : Z :=
  match v with
  | Fin q => if Qltb 0 q then 1 else if Qltb q 0 then -1 else 0
  | PInf => 1
  | NInf => -1
  | NaN => 0
  end.

Definition mul (a b : tval) : tval :=
  match a, b with
  | NaN, _ | _, NaN => NaN
  | Fin x, Fin y => Fin (x * y)%Q
  | _, _ =>
      match sgn a * sgn b with
      | Z0 => NaN
      | Zpos _ => PInf
      | Zneg _ => NInf
      end
  end.

(** Tensor division [a / b] of two finite entries: a zero divisor gives
    NaN for a zero dividend and a signed infinity otherwise. *)
Definition div (a b : Q) : tval :=
  if Qeq_bool b 0
  then if Qeq_bool a 0 then NaN
       else if Qltb 0 a then PInf else NInf
  else Fin (a / b)%Q.

(** [a > b] on tensor entries; every comparison with NaN is false. *)
Definition gt (a b : tval) : bool :=
  match a, b with
  | NaN, _ | _, NaN => false
  | Fin x, Fin y => Qltb y x
  | PInf, PInf => false
  | PInf, _ => true
  | _, NInf => negb (match a with NInf => true | _ => false end)
  | _, _ => false
  end.

(** The order used for sorting: NaN last. *)
Definition leb (a b : tval) : bool :=
  match a, b with
  | _, NaN => true
  | NaN, _ => false
  | _, _ => negb (gt a b)
  end.

Fixpoint insert (v : tval) (l : list tval) : list tval :=
  match l with
  | [] => [v]
  | x :: r => if leb v x then v :: l else x :: insert v r
  end.

Definition sort (l : list tval) : list tval := fold_right insert [] l.

(** [torch.lerp(start, end, weight) = start + weight * (end - start)]. *)
Definition lerp (a b : tval) (w : Q) : tval := add a (mul (Fin w) (sub b a)).

(** [torch.quantile(input, q)] on a flattened tensor, default linear
    interpolation: the value at rank [q * (n - 1)] of the sorted input,
    interpolated between its two neighbours; NaN when the input holds a NaN;
    an error ([None]) on an empty input. *)
Definition quantile (input : list tval) (q : Q) : option tval :=
  match input with
  | [] => None
  | _ :: _ =>
      if existsb is_nan input then Some NaN
      else
        let sorted := sort input in
        let rank := (q * inject_Z (Z.of_nat (List.length input) - 1))%Q in
        let below := Qfloor rank in
        let above := Qceiling rank in
        let weight := (rank - inject_Z below)%Q in
        Some (lerp (nth (Z.to_nat below) sorted NaN)
                   (nth (Z.to_nat above) sorted NaN) weight)
  end.

End TVal.

(** ** Discrepancy localizer (train.py, lines 174-231) *)

Module Localizer.

(** The activation window of the localizer, inclusive at both ends. *)
Definition active (opt : OptimizationParams) (iteration : Z) : bool :=
  (densify_from_iter opt <=? iteration) && (iteration <=? densify_until_iter opt).

Definition Qmaxb (a b : Q) : Q := if Qle_bool a b then b else a.
Definition Qminb (a b : Q) : Q := if Qle_bool a b then a else b.

(** [tensor.max()] and [tensor.min()]; an error on an empty tensor. *)
Definition tensor_max (t : list Q) : option Q :=
  match t with
  | [] => None
  | x :: r => Some (fold_left Qmaxb r x)
  end.

Definition tensor_min (t : list Q) : option Q :=
  match t with
  | [] => None
  | x :: r => Some (fold_left Qminb r x)
  end.

(** [normalized_tensor = (per_pixel_discrepancy - d_min) / (d_max - d_min)],
    with no test of the divisor. *)
Definition normalized_tensor (per_pixel_discrepancy : list Q) : option (list tval) :=
  match tensor_max per_pixel_discrepancy, tensor_min per_pixel_discrepancy with
  | Some d_max, Some d_min =>
      Some (map (fun x => TVal.div (x - d_min) (d_max - d_min)) per_pixel_discrepancy)
  | _, _ => None
  end.

Definition percentile (opt : OptimizationParams) (iteration : Z) : Q :=
  if (7001 <=? iteration) && (iteration <=? densify_until_iter opt)
  then 995 # 1000
  else 999 # 1000.

Definition cutoff (opt : OptimizationParams) (iteration : Z)
    (per_pixel_discrepancy : list Q) : option tval :=
  match normalized_tensor per_pixel_discrepancy with
  | Some normalized => TVal.quantile normalized (percentile opt iteration)
  | None => None
  end.

(** [discrepancy_mask = per_pixel_discrepancy > cutoff]: the comparison is
    on the discrepancy map itself, not on [normalized_tensor]. *)
Definition discrepancy_mask (opt : OptimizationParams) (iteration : Z)
    (per_pixel_discrepancy : list Q) : option (list bool) :=
  match cutoff opt iteration per_pixel_discrepancy with
  | Some c => Some (map (fun x => TVal.gt (Fin x) c) per_pixel_discrepancy)
  | None => None
  end.

(** The flag map as the specification words it: the normalized map
    thresholded at its own quantile. *)
Definition spec_discrepancy_mask (opt : OptimizationParams) (iteration : Z)
    (per_pixel_discrepancy : list Q) : option (list bool) :=
  match normalized_tensor per_pixel_discrepancy,
        cutoff opt iteration per_pixel_discrepancy with
  | Some normalized, Some c => Some (map (fun v => TVal.gt v c) normalized)
  | _, _ => None
  end.

(** [pixel_to_gaussians[:, :, :3]]: the first three entries of every
    pixel's contributor list. *)
Definition first3 (pixel_to_gaussians : list (list Z)) : list (list Z) :=
  map (firstn 3) pixel_to_gaussians.

(** The rows of [rows] at which [mask] is true. *)
Fixpoint flagged_rows {A : Type} (mask : list bool) (rows : list A) : list A :=
  match mask, rows with
  | b :: mask', r :: rows' =>
      if b then r :: flagged_rows mask' rows' else flagged_rows mask' rows'
  | _, _ => []
  end.

(** Boolean-mask indexing [rows[mask]]; an [IndexError] ([None]) when the
    mask and the indexed dimension differ in length. *)
Definition mask_select {A : Type} (mask : list bool) (rows : list A) : option (list A) :=
  if Nat.eqb (List.length mask) (List.length rows) then Some (flagged_rows mask rows) else None.

Fixpoint insert_unique (x : Z) (l : list Z) : list Z :=
  match l with
  | [] => [x]
  | y :: r =>
      if x <? y then x :: l
      else if x =? y then l
      else y :: insert_unique x r
  end.

(** [torch.unique]: the distinct values, in increasing order. *)
Definition unique (l : list Z) : list Z := fold_right insert_unique [] l.

(** Lines 196 and 221-231: slice, select the flagged pixels, drop the
    negative entries, deduplicate. *)
Definition gaussians_to_densify (pixel_to_gaussians : list (list Z))
    (discrepancy_mask : list bool) : option (list Z) :=
  let pixel_to_gaussians_flat := first3 pixel_to_gaussians in
  match mask_select discrepancy_mask pixel_to_gaussians_flat with
  | Some selected_gaussians =>
      let valid_gaussians := filter (fun g => 0 <=? g) (List.concat selected_gaussians) in
      Some (unique valid_gaussians)
  | None => None
  end.

(** The whole localizer of one iteration. *)
Definition localizer (opt : OptimizationParams) (iteration : Z)
    (per_pixel_discrepancy : list Q) (pixel_to_gaussians : list (list Z))
    : option (list Z) :=
  match discrepancy_mask opt iteration per_pixel_discrepancy with
  | Some m => gaussians_to_densify pixel_to_gaussians m
  | None => None
  end.

End Localizer.

(** ** Loss composition (train.py, lines 149-170, 251-254, 292-306) *)

(** One pixel of the depth data of a viewpoint: the rendered inverse depth,
    the reference inverse depth and the mask entry. *)
Record depth_pixel : Type := mkDepthPixel {
  invDepth : Q;
  mono_invdepth : Q;
  depth_mask : Q
}.

Module Loss.

Definition Qsum (t : list Q) : Q := fold_right Qplus 0%Q t.

(** [tensor.mean()]: NaN on an empty tensor. *)
Definition mean (t : list Q) : tval :=
  TVal.div (Qsum t) (inject_Z (Z.of_nat (List.length t))).

(** The loop over the three levels: [wavelet_loss += level_loss *
    wavelet_weights[level]]. *)
Definition wavelet_loss (opt : OptimizationParams) (iteration : Z)
    (level_loss : nat -> Q) : Q :=
  fold_left
    (fun acc level =>
       (acc + level_loss level * nth level (Schedule.wavelet_weights opt iteration) 0)%Q)
    (seq 0 3) 0%Q.

Definition Ll1depth_pure (depth : list depth_pixel) : tval :=
  mean (map (fun p => Qabs ((invDepth p - mono_invdepth p) * depth_mask p)) depth).

(** The scalar on which [backward] is called.  [depth_l1_weight] is the
    schedule built by [get_expon_lr_func], taken as given. *)
Definition loss (opt : OptimizationParams) (depth_l1_weight : Z -> Q)
    (iteration : Z) (Ll1 ssim_value : Q) (level_loss : nat -> Q)
    (depth_reliable : bool) (depth : list depth_pixel) : tval :=
  let L1_LOSS := ((1 - lambda_dssim opt) * Ll1)%Q in
  let SSIM_LOSS := (lambda_dssim opt * (1 - ssim_value))%Q in
  let loss := (L1_LOSS + SSIM_LOSS + wavelet_loss opt iteration level_loss)%Q in
  if TVal.Qltb 0 (depth_l1_weight iteration) && depth_reliable
  then
    let Ll1depth := TVal.mul (Fin (depth_l1_weight iteration)) (Ll1depth_pure depth) in
    TVal.add (Fin loss) Ll1depth
  else Fin loss.

(** The total loss as the specification words it. *)
Definition spec_depth_term (depth_l1_weight : Z -> Q) (iteration : Z)
    (depth_reliable : bool) (depth : list depth_pixel) : tval :=
  if TVal.Qltb 0 (depth_l1_weight iteration) && depth_reliable
  then TVal.mul (Fin (depth_l1_weight iteration))
         (mean (map (fun p => (Qabs (invDepth p - mono_invdepth p) * depth_mask p)%Q) depth))
  else Fin 0.

Definition spec_loss (opt : OptimizationParams) (depth_l1_weight : Z -> Q)
    (iteration : Z) (Ll1 ssim_value : Q) (level_loss : nat -> Q)
    (depth_reliable : bool) (depth : list depth_pixel) : tval :=
  TVal.add
    (Fin ((1 - lambda_dssim opt) * Ll1 + lambda_dssim opt * (1 - ssim_value)
          + wavelet_loss opt iteration level_loss)%Q)
    (spec_depth_term depth_l1_weight iteration depth_reliable depth).

(** Equality of tensor values up to the representation of rationals. *)
Definition eqv (a b : tval) : Prop :=
  match a, b with
  | Fin x, Fin y => (x == y)%Q
  | PInf, PInf | NInf, NInf | NaN, NaN => True
  | _, _ => False
  end.

End Loss.

(** ** The training loop (train.py, lines 46-76, 172-174, 306-357) *)

(** Sequencing of steps that can raise; [None] is a raised exception. *)
Definition bind {A B : Type} (m : option A) (k : A -> option B) : option B :=
  match m with
  | Some a => k a
  | None => None
  end.

Notation "x <- m ;; k" := (bind m (fun x => k))
  (at level 61, m at next level, right associativity).

(** Python's [a % b] on integers: floor modulo, [ZeroDivisionError] on a
    zero divisor. *)
Definition pymod (a b : Z) : option Z :=
  if b =? 0 then None else Some (a mod b).

(** [range(lo, hi)]. *)
Definition range (lo hi : Z) : list Z :=
  map (fun k => lo + Z.of_nat k) (seq 0 (Z.to_nat (hi - lo))).

Definition mem (x : Z) (l : list Z) : bool := existsb (Z.eqb x) l.

(** Assignment through a boolean mask, [cur[mask] = f(cur[mask], new[mask])];
    an [IndexError] when the three shapes differ. *)
Fixpoint masked_update {A B : Type} (f : A -> B -> A)
    (mask : list bool) (cur : list A) (new : list B) : option (list A) :=
  match mask, cur, new with
  | [], [], [] => Some []
  | b :: mask', c :: cur', n :: new' =>
      r <- masked_update f mask' cur' new' ;;
      Some ((if b then f c n else c) :: r)
  | _, _, _ => None
  end.

Section Loop.

(** The trainable tensors of the population (positions, shapes, opacities,
    colours, exposures) and their gradients are opaque here. *)
Variable Params : Type.
Variable Grad : Type.

(** The population: the trainable tensors and the per-primitive running
    statistics kept next to them. *)
Record GaussianModel : Type := mkGaussians {
  params : Params;
  max_radii2D : list Z;
  xyz_gradient_accum : list Q;
  denom : list Z
}.

(** The population together with the [.grad] fields of its tensors; [None]
    after [zero_grad(set_to_none = True)]. *)
Record TrainState : Type := mkState {
  gaussians : GaussianModel;
  grad : option Grad
}.

(** What one iteration obtains from the renderer and from the backward
    pass of its loss. *)
Record IterInput : Type := mkInput {
  visibility_filter : list bool;
  radii : list Z;
  viewspace_grad_norm : list Q;
  per_pixel_discrepancy : list Q;
  pixel_to_gaussians : list (list Z);
  loss_grad : Grad;
  wavelet_grad : Grad
}.

Inductive event : Type :=
| Save (iteration : Z) (snapshot : Params)
| DensifyAndPrune (size_threshold : option Z) (flagged : option (list Z))
| ResetOpacity
| OptimizerStep
| Checkpoint (snapshot : GaussianModel) (iteration : Z).

(** Collaborators outside [train.py], taken as given: gradient
    accumulation of autograd, the population controller of [GaussianModel]
    and the two optimizers.  None of the controller's operations reads the
    [.grad] fields. *)
Variable accumulate : option Grad -> Grad -> Grad.
Variable densify_and_prune :
  GaussianModel -> option Z -> list Z -> option (list Z) -> GaussianModel.
Variable reset_opacity : Params -> Params.
Variable exposure_step : Params -> option Grad -> Params.
Variable dense_step : Params -> option Grad -> Params.
Variable sparse_step : list bool -> nat -> Params -> option Grad -> Params.

Variable SPARSE_ADAM_AVAILABLE : bool.

Definition use_sparse_adam (opt : OptimizationParams) : bool :=
  String.eqb (optimizer_type opt) "sparse_adam" && SPARSE_ADAM_AVAILABLE.

(** [gaussians_to_densify]: Python's [None] outside the localizer window,
    the localizer's tensor inside it. *)
Definition gaussians_to_densify (opt : OptimizationParams) (iteration : Z)
    (inp : IterInput) : option (option (list Z)) :=
  if Localizer.active opt iteration
  then
    r <- Localizer.localizer opt iteration
           (per_pixel_discrepancy inp) (pixel_to_gaussians inp) ;;
    Some (Some r)
  else Some None.

(** The gradients left by the backward passes of one iteration.  Every 500
    iterations the diagnostic block clears them and runs the backward pass
    of the wavelet term last, so [loss.backward()] adds to that. *)
Definition backward (iteration : Z) (inp : IterInput) (g : option Grad) : option Grad :=
  if iteration mod 500 =? 0
  then Some (accumulate (Some (wavelet_grad inp)) (loss_grad inp))
  else Some (accumulate g (loss_grad inp)).

(** Line 333: [max_radii2D[visibility_filter] = torch.max(...)]. *)
Definition update_max_radii (inp : IterInput) (g : GaussianModel) : option GaussianModel :=
  r <- masked_update Z.max (visibility_filter inp) (max_radii2D g) (radii inp) ;;
  Some (mkGaussians (params g) r (xyz_gradient_accum g) (denom g)).

(** Modelled from the spec: [GaussianModel.add_densification_stats], whose
    file is not among the sources.  For the primitives visible in the
    iteration the gradient magnitude is added to the accumulated sum and the
    visit count is incremented. *)
Definition add_densification_stats (inp : IterInput) (g : GaussianModel)
    : option GaussianModel :=
  a <- masked_update Qplus (visibility_filter inp) (xyz_gradient_accum g)
         (viewspace_grad_norm inp) ;;
  d <- masked_update (fun n (_ : Q) => n + 1) (visibility_filter inp) (denom g)
         (viewspace_grad_norm inp) ;;
  Some (mkGaussians (params g) (max_radii2D g) a d).

(** Lines 333-334. *)
Definition statistics_update (inp : IterInput) (g : GaussianModel) : option GaussianModel :=
  g1 <- update_max_radii inp g ;;
  add_densification_stats inp g1.

(** Lines 336-341. *)
Definition population_control (opt : OptimizationParams) (white_background : bool)
    (iteration : Z) (inp : IterInput) (flagged : option (list Z))
    (g : GaussianModel) : option (GaussianModel * list event) :=
  grown <-
    (if densify_from_iter opt <? iteration
     then
       m <- pymod iteration (densification_interval opt) ;;
       if m =? 0
       then
         let size_threshold :=
           if opacity_reset_interval opt <? iteration then Some 20 else None in
         Some (densify_and_prune g size_threshold (radii inp) flagged,
               [DensifyAndPrune size_threshold flagged])
       else Some (g, [])
     else Some (g, [])) ;;
  m <- pymod iteration (opacity_reset_interval opt) ;;
  if (m =? 0) || (white_background && (iteration =? densify_from_iter opt))
  then
    let g2 := fst grown in
    Some (mkGaussians (reset_opacity (params g2)) (max_radii2D g2)
            (xyz_gradient_accum g2) (denom g2),
          snd grown ++ [ResetOpacity])
  else Some grown.

(** Lines 330-341, the block under [# Densification]. *)
Definition densification (opt : OptimizationParams) (white_background : bool)
    (iteration : Z) (inp : IterInput) (flagged : option (list Z))
    (g : GaussianModel) : option (GaussianModel * list event) :=
  if iteration <? densify_until_iter opt
  then
    g1 <- statistics_update inp g ;;
    population_control opt white_background iteration inp flagged g1
  else Some (g, []).

(** Lines 343-353, the block under [# Optimizer step]. *)
Definition optimizer_stage (opt : OptimizationParams) (iteration : Z)
    (inp : IterInput) (s : TrainState) : TrainState * list event :=
  if iteration <? iterations opt
  then
    let p1 := exposure_step (params (gaussians s)) (grad s) in
    let p2 :=
      if use_sparse_adam opt
      then
        let visible := map (fun r => 0 <? r) (radii inp) in
        sparse_step visible (List.length (radii inp)) p1 (grad s)
      else dense_step p1 (grad s) in
    let g := gaussians s in
    (mkState (mkGaussians p2 (max_radii2D g) (xyz_gradient_accum g) (denom g)) None,
     [OptimizerStep])
  else (s, []).

(** One pass through the body of the loop, from the localizer on. *)
Definition train_iteration (opt : OptimizationParams) (white_background : bool)
    (saving_iterations checkpoint_iterations : list Z)
    (iteration : Z) (inp : IterInput) (s : TrainState)
    : option (TrainState * list event) :=
  flagged <- gaussians_to_densify opt iteration inp ;;
  let grad1 := backward iteration inp (grad s) in
  let saved :=
    if mem iteration saving_iterations
    then [Save iteration (params (gaussians s))] else [] in
  d <- densification opt white_background iteration inp flagged (gaussians s) ;;
  let '(s2, stepped) := optimizer_stage opt iteration inp (mkState (fst d) grad1) in
  let checkpointed :=
    if mem iteration checkpoint_iterations
    then [Checkpoint (gaussians s2) iteration] else [] in
  Some (s2, saved ++ snd d ++ stepped ++ checkpointed).

(** How [training] ends: [sys.exit] with a message, an uncaught exception,
    or the end of the loop with the log of what was done. *)
Inductive outcome : Type :=
| Exit (status : Z) (message : string)
| Raised (log : list (Z * list event))
| Completed (final : TrainState) (log : list (Z * list event)).

Fixpoint run (opt : OptimizationParams) (white_background : bool)
    (saving_iterations checkpoint_iterations : list Z)
    (render : Z -> GaussianModel -> IterInput)
    (todo : list Z) (s : TrainState) (log : list (Z * list event)) : outcome :=
  match todo with
  | [] => Completed s log
  | iteration :: rest =>
      match train_iteration opt white_background saving_iterations
              checkpoint_iterations iteration
              (render iteration (gaussians s)) s with
      | Some (s', evs) =>
          run opt white_background saving_iterations checkpoint_iterations
            render rest s' (log ++ [(iteration, evs)])
      | None => Raised log
      end
  end.

(** [training], with the population as set up (or restored from the
    checkpoint) and [first_iter] as read from the checkpoint, 0 without one. *)
Definition training (opt : OptimizationParams) (white_background : bool)
    (saving_iterations checkpoint_iterations : list Z)
    (render : Z -> GaussianModel -> IterInput)
    (first_iter : Z) (init : TrainState) : outcome :=
  if negb SPARSE_ADAM_AVAILABLE && String.eqb (optimizer_type opt) "sparse_adam"
  then Exit 1 "Trying to use sparse adam but it is not installed, please install the correct rasterizer using pip install [3dgs_accel]."
  else
    run opt white_background saving_iterations checkpoint_iterations render
      (range (first_iter + 1) (iterations opt + 1)) init [].

(** The shapes of one iteration agree: one entry per primitive in the
    render outputs and in the running statistics, and one contributor list
    per pixel of a non-empty discrepancy map. *)
Definition well_shaped (inp : IterInput) (g : GaussianModel) : Prop :=
  List.length (visibility_filter inp) = List.length (max_radii2D g) /\
  List.length (max_radii2D g) = List.length (radii inp) /\
  List.length (visibility_filter inp) = List.length (xyz_gradient_accum g) /\
  List.length (visibility_filter inp) = List.length (denom g) /\
  List.length (xyz_gradient_accum g) = List.length (viewspace_grad_norm inp) /\
  per_pixel_discrepancy inp <> [] /\
  List.length (per_pixel_discrepancy inp) = List.length (pixel_to_gaussians inp).

(** The same render outputs with other gradients. *)
Definition with_grads (inp : IterInput) (lg wg : Grad) : IterInput :=
  mkInput (visibility_filter inp) (radii inp) (viewspace_grad_norm inp)
    (per_pixel_discrepancy inp) (pixel_to_gaussians inp) lg wg.

End Loop.

Arguments mkGaussians {Params}.
Arguments params {Params}.
Arguments max_radii2D {Params}.
Arguments xyz_gradient_accum {Params}.
Arguments denom {Params}.
Arguments mkState {Params Grad}.
Arguments gaussians {Params Grad}.
Arguments grad {Params Grad}.
Arguments mkInput {Grad}.
Arguments visibility_filter {Grad}.
Arguments radii {Grad}.
Arguments viewspace_grad_norm {Grad}.
Arguments per_pixel_discrepancy {Grad}.
Arguments pixel_to_gaussians {Grad}.
Arguments loss_grad {Grad}.
Arguments wavelet_grad {Grad}.
Arguments Save {Params}.
Arguments DensifyAndPrune {Params}.
Arguments ResetOpacity {Params}.
Arguments OptimizerStep {Params}.
Arguments Checkpoint {Params}.
Arguments Exit {Params Grad}.
Arguments Raised {Params Grad}.
Arguments Completed {Params Grad}.
Arguments well_shaped {Params Grad}.
Arguments with_grads {Grad}.
Arguments gaussians_to_densify {Grad}.
Arguments update_max_radii {Params Grad}.
Arguments add_densification_stats {Params Grad}.
Arguments statistics_update {Params Grad}.
Arguments backward {Grad}.
Arguments population_control {Params Grad}.
Arguments densification {Params Grad}.
Arguments optimizer_stage {Params Grad}.
Arguments train_iteration {Params Grad}.
Arguments run {Params Grad}.
Arguments training {Params Grad}.

(** The two gates of lines 336 and 340, and what the densification block
    logs when nothing raises. *)
Definition densify_due (opt : OptimizationParams) (iteration : Z) : bool :=
  (densify_from_iter opt <? iteration)
  && (iteration mod densification_interval opt =? 0).

Definition reset_due (opt : OptimizationParams) (white_background : bool)
    (iteration : Z) : bool :=
  (iteration mod opacity_reset_interval opt =? 0)
  || (white_background && (iteration =? densify_from_iter opt)).

Definition control_events {Params : Type} (opt : OptimizationParams)
    (white_background : bool) (iteration : Z) (flagged : option (list Z))
    : list (event Params) :=
  (if densify_due opt iteration
   then [DensifyAndPrune
           (if opacity_reset_interval opt <? iteration then Some 20 else None)
           flagged]
   else [])
  ++ (if reset_due opt white_background iteration then [ResetOpacity] else []).



(** ** Viewpoint sampling (train.py, lines 69-70, 100-106) *)

Module Sampler.

(** [random.randint(a, b)]: an integer of [a, b], here picked by the raw
    random number [r]; a [ValueError] on an empty range. *)
Definition randint (a b r : Z) : option Z :=
  if a <=? b then Some (a + r mod (b - a + 1)) else None.

Fixpoint remove_nth {A : Type} (n : nat) (l : list A) : list A :=
  match n, l with
  | _, [] => []
  | O, _ :: r => r
  | S n', x :: r => x :: remove_nth n' r
  end.

(** [list.pop(i)]: the entry at [i], counted from the end when [i] is
    negative, and the list without it; an [IndexError] out of range. *)
Definition pop {A : Type} (l : list A) (i : Z) : option (A * list A) :=
  let j := if i <? 0 then i + Z.of_nat (List.length l) else i in
  if (0 <=? j) && (j <? Z.of_nat (List.length l))
  then
    match nth_error l (Z.to_nat j) with
    | Some x => Some (x, remove_nth (Z.to_nat j) l)
    | None => None
    end
  else None.

(** The two parallel lists of the loop: the cameras not yet used in the
    epoch and their indices. *)
Record pool (Camera : Type) : Type := mkPool {
  viewpoint_stack : list Camera;
  viewpoint_indices : list Z
}.

Arguments mkPool {Camera}.
Arguments viewpoint_stack {Camera}.
Arguments viewpoint_indices {Camera}.

(** Lines 69-70: the pool before the first iteration. *)
Definition initial_pool {Camera : Type} (cameras : list Camera) : pool Camera :=
  mkPool cameras (range 0 (Z.of_nat (List.length cameras))).

(** Lines 101-106: refill an exhausted pool, draw an index, pop the camera
    and its index.  The result is the camera, its index [vind] and the pool
    left. *)
Definition pick_camera {Camera : Type} (cameras : list Camera) (r : Z)
    (p : pool Camera) : option (Camera * Z * pool Camera) :=
  let p1 :=
    match viewpoint_stack p with
    | [] => initial_pool cameras
    | _ :: _ => p
    end in
  rand_idx <- randint 0 (Z.of_nat (List.length (viewpoint_indices p1)) - 1) r ;;
  cam <- pop (viewpoint_stack p1) rand_idx ;;
  vind <- pop (viewpoint_indices p1) rand_idx ;;
  Some (fst cam, fst vind, mkPool (snd cam) (snd vind)).

(** The picks of consecutive iterations, one raw random number each. *)
Fixpoint picks {Camera : Type} (cameras : list Camera) (rs : list Z)
    (p : pool Camera) : option (list (Camera * Z) * pool Camera) :=
  match rs with
  | [] => Some ([], p)
  | r :: rs' =>
      x <- pick_camera cameras r p ;;
      rest <- picks cameras rs' (snd x) ;;
      Some ((fst (fst x), snd (fst x)) :: fst rest, snd rest)
  end.

(** The pool a pick draws from: refilled when exhausted. *)
Definition refilled {Camera : Type} (cameras : list Camera) (p : pool Camera)
    : pool Camera :=
  match viewpoint_stack p with
  | [] => initial_pool cameras
  | _ :: _ => p
  end.

(** The pool holds, slot by slot, a camera and the index it has among
    [cameras]. *)
Definition aligned {Camera : Type} (cameras : list Camera) (p : pool Camera) : Prop :=
  Forall2 (fun c i => 0 <= i /\ nth_error cameras (Z.to_nat i) = Some c)
    (viewpoint_stack p) (viewpoint_indices p).

End Sampler.

(** ** Smoothed losses for the progress bar (train.py, lines 71-72, 312-313) *)

Module Ema.

(** [ema = 0.4 * current + 0.6 * ema]. *)
Definition ema_step (ema current : Q) : Q :=
  ((4 # 10) * current + (6 # 10) * ema)%Q.

(** [ema_loss_for_log] after the iterations whose losses are [losses],
    from its initial value 0.0. *)
Definition ema_loss_for_log (losses : list Q) : Q :=
  fold_left ema_step losses 0%Q.

End Ema.

(** ** Evaluation report (train.py, lines 381-419) *)

Module Report.

(** What [training_report] writes: scalars, images and a histogram to the
    tensorboard writer, and one printed line per evaluated split. *)
Inductive report_event : Type :=
| AddScalar (tag : string) (value : Q) (step : Z)
| AddImages (tag : string) (step : Z)
| AddHistogram (tag : string) (step : Z)
| PrintLine (iteration : Z) (name : string) (l1_test psnr_test : Q).

Section Report.

Variable Camera : Type.

(** The name of a viewpoint and the two metrics of its clamped render
    against its clamped ground truth, as the renderer of the iteration
    gives them. *)
Variable image_name : Camera -> string.
Variable l1_of : Camera -> Q.
Variable psnr_of : Camera -> Q.

(** [[train[idx % len(train)] for idx in range(5, 30, 5)]]. *)
Fixpoint sample_at (train : list Camera) (idxs : list Z) : option (list Camera) :=
  match idxs with
  | [] => Some []
  | idx :: rest =>
      m <- pymod idx (Z.of_nat (List.length train)) ;;
      c <- nth_error train (Z.to_nat m) ;;
      r <- sample_at train rest ;;
      Some (c :: r)
  end.

Definition sampled_train_cameras (train : list Camera) : option (list Camera) :=
  sample_at train [5; 10; 15; 20; 25].

(** The images written for the view at position [idx] of a split. *)
Definition view_images (tb_writer : bool) (iteration : Z) (testing_iterations : list Z)
    (name : string) (idx : nat) (viewpoint : Camera) : list report_event :=
  if tb_writer && (idx <? 5)%nat
  then
    AddImages (name ++ "_view_" ++ image_name viewpoint ++ "/render") iteration
    :: (if iteration =? hd 0 testing_iterations
        then [AddImages (name ++ "_view_" ++ image_name viewpoint ++ "/ground_truth")
                iteration]
        else [])
  else [].

Fixpoint views_images (tb_writer : bool) (iteration : Z) (testing_iterations : list Z)
    (name : string) (idx : nat) (cameras : list Camera) : list report_event :=
  match cameras with
  | [] => []
  | viewpoint :: rest =>
      view_images tb_writer iteration testing_iterations name idx viewpoint
      ++ views_images tb_writer iteration testing_iterations name (S idx) rest
  end.

Definition average (f : Camera -> Q) (cameras : list Camera) : Q :=
  (Loss.Qsum (map f cameras) / inject_Z (Z.of_nat (List.length cameras)))%Q.

(** The body of the loop over [validation_configs] for one split; a split
    without cameras is skipped. *)
Definition evaluate (tb_writer : bool) (iteration : Z) (testing_iterations : list Z)
    (name : string) (cameras : list Camera) : list report_event :=
  match cameras with
  | [] => []
  | _ :: _ =>
      let l1_test := average l1_of cameras in
      let psnr_test := average psnr_of cameras in
      views_images tb_writer iteration testing_iterations name 0 cameras
      ++ [PrintLine iteration name l1_test psnr_test]
      ++ (if tb_writer
          then [AddScalar (name ++ "/loss_viewpoint - l1_loss") l1_test iteration;
                AddScalar (name ++ "/loss_viewpoint - psnr") psnr_test iteration]
          else [])
  end.

Definition training_report (tb_writer : bool) (iteration : Z) (Ll1 loss elapsed : Q)
    (testing_iterations : list Z) (test train : list Camera) (total_points : Z)
    : option (list report_event) :=
  let scalars :=
    if tb_writer
    then [AddScalar "train_loss_patches/l1_loss" Ll1 iteration;
          AddScalar "train_loss_patches/total_loss" loss iteration;
          AddScalar "iter_time" elapsed iteration]
    else [] in
  if mem iteration testing_iterations
  then
    sampled <- sampled_train_cameras train ;;
    Some (scalars
          ++ evaluate tb_writer iteration testing_iterations "test" test
          ++ evaluate tb_writer iteration testing_iterations "train" sampled
          ++ (if tb_writer
              then [AddHistogram "scene/opacity_histogram" iteration;
                    AddScalar "total_points" (inject_Z total_points) iteration]
              else []))
  else Some scalars.

End Report.

Arguments sample_at {Camera}.
Arguments sampled_train_cameras {Camera}.
Arguments average {Camera}.
Arguments evaluate {Camera}.
Arguments training_report {Camera}.

End Report.

(** ** The entry point (train.py, lines 421-452) *)

Section Main.

Variable Params : Type.
Variable Grad : Type.
Variable accumulate : option Grad -> Grad -> Grad.
Variable densify_and_prune :
  GaussianModel Params -> option Z -> list Z -> option (list Z) -> GaussianModel Params.
Variable reset_opacity : Params -> Params.
Variable exposure_step : Params -> option Grad -> Params.
Variable dense_step : Params -> option Grad -> Params.
Variable sparse_step : list bool -> nat -> Params -> option Grad -> Params.
Variable SPARSE_ADAM_AVAILABLE : bool.

(** Line 438 and line 449: the last iteration is added to the save list
    before [training] is called. *)
Definition main (opt : OptimizationParams) (white_background : bool)
    (save_iterations checkpoint_iterations : list Z)
    (render : Z -> GaussianModel Params -> IterInput Grad)
    (first_iter : Z) (init : TrainState Params Grad) : outcome Params Grad :=
  let save_iterations := save_iterations ++ [iterations opt] in
  training accumulate densify_and_prune reset_opacity exposure_step dense_step
    sparse_step SPARSE_ADAM_AVAILABLE opt white_background save_iterations
    checkpoint_iterations render first_iter init.

End Main.

Arguments main {Params Grad}.

(** The same render output with another result of the backward pass: the
    gradients of the parameters and the gradient magnitudes of the
    screen-space points. *)
Definition with_backward {Grad : Type} (inp : IterInput Grad) (lg wg : Grad)
    (vg : list Q) : IterInput Grad :=
  mkInput (visibility_filter inp) (radii inp) vg
    (per_pixel_discrepancy inp) (pixel_to_gaussians inp) lg wg.

(** ** A population that grows *)

Module Growth.

(** [xyz_gradient_accum / denom], the average gradient of a primitive. *)
Definition average_gradient (accum : Q) (visits : Z) : tval :=
  TVal.div accum (inject_Z visits).

Definition is_candidate (threshold : Q) (flagged : option (list Z)) (index : Z)
    (accum : Q) (visits : Z) : bool :=
  TVal.gt (average_gradient accum visits) (Fin threshold)
  || match flagged with
     | Some l => mem index l
     | None => false
     end.

Fixpoint candidates (threshold : Q) (flagged : option (list Z)) (index : Z)
    (primitives : list Z) (accum : list Q) (visits : list Z) : list Z :=
  match primitives, accum, visits with
  | p :: ps, a :: accum', n :: visits' =>
      (if is_candidate threshold flagged index a n then [p] else [])
      ++ candidates threshold flagged (index + 1) ps accum' visits'
  | _, _, _ => []
  end.

(** Modelled from the spec: [GaussianModel.densify_and_prune], whose file is
    not among the sources, in its growth rule for small primitives of
    sufficient opacity: a primitive is a growth candidate if its average
    accumulated gradient exceeds the threshold or its index is in the flagged
    set, and every candidate is cloned.  The population is a list of
    primitives; the statistics start afresh on the new population. *)
Definition densify_and_prune (threshold : Q) (g : GaussianModel (list Z))
    (size_threshold : option Z) (radii : list Z) (flagged : option (list Z))
    : GaussianModel (list Z) :=
  let grown :=
    params g
    ++ candidates threshold flagged 0 (params g) (xyz_gradient_accum g) (denom g) in
  mkGaussians grown
    (repeat 0 (List.length grown))
    (repeat 0%Q (List.length grown))
    (repeat 0 (List.length grown)).

Definition accumulate (_ : option unit) (_ : unit) : unit := tt.
Definition reset_opacity (p : list Z) : list Z := p.
Definition step (p : list Z) (_ : option unit) : list Z := p.
Definition sparse_step (_ : list bool) (_ : nat) (p : list Z) (_ : option unit)
    : list Z := p.

(** One iteration with the growth rule at the default gradient threshold
    0.0002. *)
Definition train_iteration :=
  @train_iteration (list Z) unit accumulate (densify_and_prune (2 # 10000))
    reset_opacity step step sparse_step false.

(** The default configuration stopped at iteration 7000, inside the growth
    window. *)
Definition short_opt : OptimizationParams :=
  mkOpt 7000 500 15000 100 3000 (2 # 10) "default".

(** One visible primitive with no gradient at its screen-space point; no
    pixel has a contributor. *)
Definition inp : IterInput unit :=
  mkInput [true] [5] [0%Q] [0%Q; 10%Q; 20%Q; 30%Q]
    [[-1; -1; -1]; [-1; -1; -1]; [-1; -1; -1]; [-1; -1; -1]] tt tt.

Definition s0 : TrainState (list Z) unit :=
  mkState (mkGaussians [7] [0] [0%Q] [0]) None.

End Growth.

(** Trivial collaborators over one-point parameter and gradient types, for
    running the loop on concrete inputs. *)
Module Toy.

Definition accumulate (_ : option unit) (_ : unit) : unit := tt.
Definition densify_and_prune (g : GaussianModel unit) (_ : option Z) (_ : list Z)
    (_ : option (list Z)) : GaussianModel unit := g.
Definition reset_opacity (p : unit) : unit := p.
Definition step (p : unit) (_ : option unit) : unit := p.
Definition sparse_step (_ : list bool) (_ : nat) (p : unit) (_ : option unit) : unit := p.

Definition train_iteration :=
  @train_iteration unit unit accumulate densify_and_prune reset_opacity
    step step sparse_step false.

Definition training (available : bool) :=
  @training unit unit accumulate densify_and_prune reset_opacity
    step step sparse_step available.

(** One primitive, visible, of screen radius 5; a four-pixel discrepancy
    map with three contributor slots per pixel. *)
Definition inp : IterInput unit :=
  mkInput [true] [5] [1%Q] [0%Q; 10%Q; 20%Q; 30%Q]
    [[0; -1; -1]; [0; -1; -1]; [-1; -1; -1]; [0; -1; -1]] tt tt.

Definition s0 : TrainState unit unit :=
  mkState (mkGaussians tt [0] [0%Q] [0]) None.

(** A three-iteration configuration, with the sparse optimizer selected:
    growth window [1, 3], densification at every iteration, opacity reset
    at every second one. *)
Definition small_opt : OptimizationParams :=
  mkOpt 3 1 3 1 2 (2 # 10) "sparse_adam".

Definition main (available : bool) :=
  @main unit unit accumulate densify_and_prune reset_opacity
    step step sparse_step available.

(** The default configuration with the sparse optimizer selected. *)
Definition sparse_opt : OptimizationParams :=
  mkOpt 30000 500 15000 100 3000 (2 # 10) "sparse_adam".

(** The same render output at every iteration. *)
Definition render (_ : Z) (_ : GaussianModel unit) : IterInput unit := inp.

(** The three-iteration configuration with a zero reset interval. *)
Definition zero_reset_opt : OptimizationParams :=
  mkOpt 3 1 3 1 0 (2 # 10) "sparse_adam".

Definition state_of (o : option (TrainState unit unit * list (event unit)))
    : TrainState unit unit :=
  match o with
  | Some (s, _) => s
  | None => s0
  end.

Definition events_of (o : option (TrainState unit unit * list (event unit)))
    : list (event unit) :=
  match o with
  | Some (_, evs) => evs
  | None => []
  end.

Definition final_of (o : outcome unit unit) : TrainState unit unit :=
  match o with
  | Completed final _ => final
  | _ => s0
  end.

Definition log_of (o : outcome unit unit) : list (Z * list (event unit)) :=
  match o with
  | Completed _ log | Raised log => log
  | Exit _ _ => []
  end.

(** Iteration 2 of the small configuration, saved and checkpointed. *)
Definition second_iteration : option (TrainState unit unit * list (event unit)) :=
  Eval vm_compute in train_iteration small_opt false [2] [2] 2 inp s0.

(** The whole run of the small configuration, started by [main]. *)
Definition whole_run : outcome unit unit :=
  Eval vm_compute in main true small_opt false [] [1] render 0 s0.

End Toy.

Module ScheduleFacts.
Import Schedule.

Lemma progress_at_start opt :
  (progress opt (densify_from_iter opt) == 0)%Q.
Proof.
  unfold progress. rewrite Z.sub_diag. unfold Qdiv. apply Qmult_0_l.
Qed.

Lemma progress_lt opt i j :
  densify_from_iter opt < densify_until_iter opt ->
  i < j -> (progress opt i < progress opt j)%Q.
Proof.
  intros Hw Hij. unfold progress, Qdiv.
  apply Qmult_lt_compat_r.
  - apply Qinv_lt_0_compat. replace 0%Q with (inject_Z 0) by reflexivity.
    rewrite <- Zlt_Qlt. lia.
  - rewrite <- Zlt_Qlt. lia.
Qed.

(** Before the window the weights are the baseline. *)
Lemma weights_before_start opt i :
  densify_from_iter opt <= densify_until_iter opt ->
  i < densify_from_iter opt ->
  wavelet_weights opt i = [0%Q; 0%Q; 15%Q].
Proof.
  intros Hw Hi. unfold wavelet_weights.
  destruct (Z.ltb_spec (densify_from_iter opt) i); [lia|]. simpl.
  destruct (Z.ltb_spec (densify_until_iter opt) i); [lia|]. reflexivity.
Qed.

(** On [start, end) the weights are the linear ramp of the specification. *)
Lemma weights_inside_window opt i :
  densify_from_iter opt <= i < densify_until_iter opt ->
  weights_eq (wavelet_weights opt i)
             [(50 * progress opt i)%Q; (20 * progress opt i)%Q; 15%Q].
Proof.
  intros [Hlo Hhi]. unfold wavelet_weights, weights_eq.
  destruct (Z.ltb_spec (densify_from_iter opt) i) as [Hlt|Hge]; simpl.
  - destruct (Z.ltb_spec i (densify_until_iter opt)); [|lia].
    constructor; [apply Qmult_comm|].
    constructor; [apply Qmult_comm|].
    constructor; [reflexivity|constructor].
  - assert (i = densify_from_iter opt) by lia. subst i.
    destruct (Z.ltb_spec (densify_until_iter opt) (densify_from_iter opt)); [lia|].
    constructor; [rewrite progress_at_start, Qmult_0_r; reflexivity|].
    constructor; [rewrite progress_at_start, Qmult_0_r; reflexivity|].
    constructor; [reflexivity|constructor].
Qed.

(** Strictly after the window end the weights are zero. *)
Lemma weights_after_end opt i :
  densify_until_iter opt < i ->
  wavelet_weights opt i = [0%Q; 0%Q; 0%Q].
Proof.
  intros Hi. unfold wavelet_weights.
  destruct (Z.ltb_spec (densify_from_iter opt) i);
    destruct (Z.ltb_spec i (densify_until_iter opt)); simpl; try lia;
    destruct (Z.ltb_spec (densify_until_iter opt) i); try lia; reflexivity.
Qed.

(** Entries 0 and 1 increase strictly along the window. *)
Lemma weights_monotone opt i j :
  densify_from_iter opt <= i -> i < j -> j < densify_until_iter opt ->
  (nth 0 (wavelet_weights opt i) 0 < nth 0 (wavelet_weights opt j) 0)%Q /\
  (nth 1 (wavelet_weights opt i) 0 < nth 1 (wavelet_weights opt j) 0)%Q.
Proof.
  intros Hi Hij Hj.
  assert (Hw : densify_from_iter opt < densify_until_iter opt) by lia.
  pose proof (progress_lt opt i j Hw Hij) as Hp.
  assert (Hj' : wavelet_weights opt j =
                [(progress opt j * 50)%Q; (progress opt j * 20)%Q; 15%Q]).
  { unfold wavelet_weights.
    destruct (Z.ltb_spec (densify_from_iter opt) j); [|lia].
    destruct (Z.ltb_spec j (densify_until_iter opt)); [|lia]. reflexivity. }
  rewrite Hj'. simpl.
  pose proof (weights_inside_window opt i (conj Hi (Z.lt_trans _ _ _ Hij Hj))) as Hwi.
  unfold weights_eq in Hwi.
  inversion Hwi as [|a b la lb Ha Hr]; subst.
  inversion Hr as [|a' b' la' lb' Ha' Hr']; subst. simpl.
  rewrite Ha, Ha'. split; lra.
Qed.

(** C2, the failing boundary: at [iteration = densify_until_iter] neither
    branch of the source fires, and the weight vector is the baseline
    [0, 0, 15], where the schedule of the specification is [0, 0, 0]. *)
Theorem wavelet_weights_at_window_end opt :
  densify_from_iter opt < densify_until_iter opt ->
  wavelet_weights opt (densify_until_iter opt) = [0%Q; 0%Q; 15%Q] /\
  spec_wavelet_weights opt (densify_until_iter opt) = [0%Q; 0%Q; 0%Q] /\
  ~ weights_eq (wavelet_weights opt (densify_until_iter opt))
               (spec_wavelet_weights opt (densify_until_iter opt)).
Proof.
  intros Hw.
  assert (Hc : wavelet_weights opt (densify_until_iter opt) = [0%Q; 0%Q; 15%Q]).
  { unfold wavelet_weights. rewrite Z.ltb_irrefl, andb_false_r. reflexivity. }
  assert (Hs : spec_wavelet_weights opt (densify_until_iter opt) = [0%Q; 0%Q; 0%Q]).
  { unfold spec_wavelet_weights. rewrite Z.ltb_irrefl.
    destruct (Z.ltb_spec (densify_until_iter opt) (densify_from_iter opt)); [lia|].
    reflexivity. }
  repeat split; trivial.
  rewrite Hc, Hs. unfold weights_eq. intros H.
  inversion H as [|? ? ? ? _ H1]; subst.
  inversion H1 as [|? ? ? ? _ H2]; subst.
  inversion H2 as [|? ? ? ? H3 _]; subst.
  discriminate H3.
Qed.

Lemma wavelet_weights_at_window_end_witness :
  wavelet_weights default_opt 15000 = [0%Q; 0%Q; 15%Q] /\
  spec_wavelet_weights default_opt 15000 = [0%Q; 0%Q; 0%Q] /\
  ~ weights_eq (wavelet_weights default_opt 15000)
               (spec_wavelet_weights default_opt 15000).
Proof.
  apply (wavelet_weights_at_window_end default_opt). simpl. lia.
Defined.

End ScheduleFacts.

Module LocalizerFacts.
Import Localizer.

(** *** The percentile schedule *)

Lemma percentile_early opt i :
  i <= 7000 -> percentile opt i = 999 # 1000.
Proof.
  intros Hi. unfold percentile.
  destruct (Z.leb_spec 7001 i); [lia|]. reflexivity.
Qed.

Lemma percentile_late opt i :
  7001 <= i <= densify_until_iter opt -> percentile opt i = 995 # 1000.
Proof.
  intros [Hlo Hhi]. unfold percentile.
  destruct (Z.leb_spec 7001 i); [|lia].
  destruct (Z.leb_spec i (densify_until_iter opt)); [|lia]. reflexivity.
Qed.

(** C1, evaluated on the four-pixel map [0, 10, 20, 30] at iteration 1000:
    the cutoff is the 0.999-quantile 0.999 of the normalized map
    [0, 1/3, 2/3, 1]; the source compares the map itself with it and flags
    three pixels, where thresholding the normalized map flags only the last. *)
Theorem discrepancy_mask_compares_raw_map :
  percentile default_opt 1000 = 999 # 1000 /\
  cutoff default_opt 1000 [0%Q; 10%Q; 20%Q; 30%Q] = Some (Fin (26973000 # 27000000)) /\
  discrepancy_mask default_opt 1000 [0%Q; 10%Q; 20%Q; 30%Q]
    = Some [false; true; true; true] /\
  spec_discrepancy_mask default_opt 1000 [0%Q; 10%Q; 20%Q; 30%Q]
    = Some [false; false; false; true].
Proof.
  repeat split; vm_compute; reflexivity.
Qed.

(** *** The uniform map *)

Lemma fold_max_repeat c n : fold_left Qmaxb (repeat c n) c = c.
Proof.
  induction n as [|n IH]; simpl; trivial.
  replace (Qmaxb c c) with c; trivial.
  unfold Qmaxb. destruct (Qle_bool c c); reflexivity.
Qed.

Lemma fold_min_repeat c n : fold_left Qminb (repeat c n) c = c.
Proof.
  induction n as [|n IH]; simpl; trivial.
  replace (Qminb c c) with c; trivial.
  unfold Qminb. destruct (Qle_bool c c); reflexivity.
Qed.

Lemma div_zero_by_zero c : TVal.div (c - c) (c - c) = NaN.
Proof.
  unfold TVal.div.
  assert (H : Qeq_bool (c - c) 0 = true) by (apply Qeq_bool_iff; ring).
  rewrite H. reflexivity.
Qed.

Lemma map_repeat {A B : Type} (f : A -> B) (x : A) n :
  map f (repeat x n) = repeat (f x) n.
Proof. induction n; simpl; congruence. Qed.

Lemma normalized_uniform c n :
  normalized_tensor (repeat c (S n)) = Some (repeat NaN (S n)).
Proof.
  unfold normalized_tensor. simpl tensor_max. simpl tensor_min.
  rewrite fold_max_repeat, fold_min_repeat.
  rewrite map_repeat, div_zero_by_zero. reflexivity.
Qed.

(** C3: on a uniform discrepancy map (every pixel equal to [c]) the
    normalisation divides zero by zero at every pixel: the normalized map is
    NaN throughout, so is the cutoff, and no pixel is flagged. *)
Theorem uniform_map_normalizes_to_nan opt iteration c n :
  normalized_tensor (repeat c (S n)) = Some (repeat NaN (S n)) /\
  cutoff opt iteration (repeat c (S n)) = Some NaN /\
  discrepancy_mask opt iteration (repeat c (S n)) = Some (repeat false (S n)).
Proof.
  assert (Hc : cutoff opt iteration (repeat c (S n)) = Some NaN).
  { unfold cutoff. rewrite normalized_uniform. reflexivity. }
  repeat split.
  - apply normalized_uniform.
  - exact Hc.
  - unfold discrepancy_mask. rewrite Hc. rewrite map_repeat. reflexivity.
Qed.

(** *** [torch.unique] *)

Lemma insert_unique_In x y l : In y (insert_unique x l) <-> y = x \/ In y l.
Proof.
  induction l as [|a l IH]; simpl.
  - intuition.
  - destruct (Z.ltb_spec x a); simpl; [intuition|].
    destruct (Z.eqb_spec x a); simpl.
    + subst. intuition.
    + rewrite IH. intuition.
Qed.

Lemma unique_In y l : In y (unique l) <-> In y l.
Proof.
  induction l as [|a l IH]; simpl; [tauto|].
  rewrite insert_unique_In, IH. intuition.
Qed.

Lemma insert_unique_sorted x l :
  StronglySorted Z.lt l -> StronglySorted Z.lt (insert_unique x l).
Proof.
  induction 1 as [|a l Hs IH Ha]; simpl.
  - repeat constructor.
  - destruct (Z.ltb_spec x a).
    + constructor; [constructor; trivial|].
      constructor; trivial.
      eapply Forall_impl; [|exact Ha]. simpl. intros; lia.
    + destruct (Z.eqb_spec x a).
      * constructor; trivial.
      * constructor; trivial.
        apply Forall_forall. intros z Hz.
        apply insert_unique_In in Hz. destruct Hz as [->|Hz]; [lia|].
        rewrite Forall_forall in Ha. auto.
Qed.

Lemma unique_sorted l : StronglySorted Z.lt (unique l).
Proof.
  induction l; simpl; [constructor|]. now apply insert_unique_sorted.
Qed.

Lemma sorted_lt_NoDup l : StronglySorted Z.lt l -> NoDup l.
Proof.
  induction 1 as [|a l Hs IH Ha]; constructor; trivial.
  intros Hin. rewrite Forall_forall in Ha. specialize (Ha a Hin). lia.
Qed.

Lemma flagged_rows_map {A B : Type} (f : A -> B) mask rows :
  flagged_rows mask (map f rows) = map f (flagged_rows mask rows).
Proof.
  revert rows. induction mask as [|b mask IH]; intros [|r rows]; simpl; trivial.
  destruct b; simpl; rewrite IH; reflexivity.
Qed.

(** C4, as amended: when the flag map has one entry per pixel, the flagged
    set is defined, holds exactly the non-negative entries among the first
    three contributors of the flagged pixels, and lists each of them once,
    in increasing order. *)
Theorem gaussians_to_densify_first_three rows mask :
  List.length mask = List.length rows ->
  exists r,
    gaussians_to_densify rows mask = Some r /\
    (forall i, In i r <->
       0 <= i /\ exists row, In row (flagged_rows mask rows) /\ In i (firstn 3 row)) /\
    NoDup r /\ StronglySorted Z.lt r.
Proof.
  intros Hlen. unfold gaussians_to_densify, mask_select, first3.
  rewrite length_map, Hlen, Nat.eqb_refl.
  eexists. split; [reflexivity|]. split; [|split].
  - intros i. rewrite unique_In, filter_In, in_concat.
    rewrite flagged_rows_map. split.
    + intros [[l [Hl Hi]] Hpos]. split; [apply Z.leb_le; exact Hpos|].
      apply in_map_iff in Hl. destruct Hl as [row [<- Hrow]]. eauto.
    + intros [Hpos [row [Hrow Hi]]]. split; [|apply Z.leb_le; exact Hpos].
      exists (firstn 3 row). split; trivial. apply in_map. exact Hrow.
  - apply sorted_lt_NoDup, unique_sorted.
  - apply unique_sorted.
Qed.

Lemma gaussians_to_densify_first_three_witness :
  exists r,
    gaussians_to_densify [[4; 1; -1; 7]; [2; 2; 2; 2]; [1; 0; -1; -1]]
                         [true; false; true] = Some r /\
    (forall i, In i r <->
       0 <= i /\ exists row,
         In row (flagged_rows [true; false; true]
                   [[4; 1; -1; 7]; [2; 2; 2; 2]; [1; 0; -1; -1]]) /\
         In i (firstn 3 row)) /\
    NoDup r /\ StronglySorted Z.lt r.
Proof.
  apply (gaussians_to_densify_first_three
           [[4; 1; -1; 7]; [2; 2; 2; 2]; [1; 0; -1; -1]] [true; false; true]).
  reflexivity.
Defined.

(** C4 as stated fails: a pixel with four contributors [0, 1, 2, 3] is
    flagged, and the fourth, non-sentinel contributor is not returned. *)
Lemma full_width_contributor_omitted :
  ~ (forall rows mask r,
       gaussians_to_densify rows mask = Some r ->
       forall row i, In row (flagged_rows mask rows) -> In i row -> 0 <= i -> In i r).
Proof.
  intros H.
  specialize (H [[0; 1; 2; 3]] [true] [0; 1; 2] eq_refl [0; 1; 2; 3] 3).
  simpl in H.
  assert (Hin : 0 = 3 \/ 1 = 3 \/ 2 = 3 \/ False) by (apply H; [tauto|tauto|lia]).
  lia.
Qed.

End LocalizerFacts.

Module LossFacts.
Import Loss.

Lemma eqv_refl v : eqv v v.
Proof. destruct v; simpl; trivial. reflexivity. Qed.

Lemma Qltb_compat a a' b b' :
  (a == a')%Q -> (b == b')%Q -> TVal.Qltb a b = TVal.Qltb a' b'.
Proof.
  intros Ha Hb. unfold TVal.Qltb. f_equal.
  apply eq_true_iff_eq. rewrite !Qle_bool_iff, Ha, Hb. tauto.
Qed.

Lemma Qeq_bool_compat a a' b :
  (a == a')%Q -> Qeq_bool a b = Qeq_bool a' b.
Proof.
  intros Ha. apply eq_true_iff_eq. rewrite !Qeq_bool_iff, Ha. tauto.
Qed.

Lemma div_eqv a a' b : (a == a')%Q -> eqv (TVal.div a b) (TVal.div a' b).
Proof.
  intros Ha. unfold TVal.div.
  rewrite (Qeq_bool_compat a a' 0 Ha).
  rewrite (Qltb_compat 0 0 a a' (Qeq_refl 0) Ha).
  destruct (Qeq_bool b 0).
  - destruct (Qeq_bool a' 0); simpl; trivial.
    destruct (TVal.Qltb 0 a'); simpl; trivial.
  - simpl. rewrite Ha. reflexivity.
Qed.

Lemma mul_eqv w x y : eqv x y -> eqv (TVal.mul (Fin w) x) (TVal.mul (Fin w) y).
Proof.
  destruct x, y; simpl; try tauto.
  - intros H. rewrite H. reflexivity.
  - intros _. apply eqv_refl.
  - intros _. apply eqv_refl.
Qed.

Lemma add_eqv a a' x y :
  (a == a')%Q -> eqv x y -> eqv (TVal.add (Fin a) x) (TVal.add (Fin a') y).
Proof.
  intros Ha. destruct x, y; simpl; try tauto.
  intros H. rewrite Ha, H. reflexivity.
Qed.

Lemma Qsum_compat {A : Type} (f g : A -> Q) l :
  Forall (fun p => f p == g p)%Q l ->
  (Qsum (map f l) == Qsum (map g l))%Q.
Proof.
  induction 1 as [|p l Hp Hl IH]; simpl; [reflexivity|].
  rewrite Hp, IH. reflexivity.
Qed.

Lemma abs_times_mask x m : (0 <= m)%Q -> (Qabs (x * m) == Qabs x * m)%Q.
Proof.
  intros Hm. rewrite Qabs_Qmult, (Qabs_pos m Hm). reflexivity.
Qed.

(** The depth residual of the source, [|(a - b) * mask|], averaged, is the
    [mean(|a - b| * mask)] of the specification on a non-negative mask. *)
Lemma Ll1depth_pure_spec depth :
  Forall (fun p => 0 <= depth_mask p)%Q depth ->
  eqv (Ll1depth_pure depth)
      (mean (map (fun p => (Qabs (invDepth p - mono_invdepth p) * depth_mask p)%Q) depth)).
Proof.
  intros Hm. unfold Ll1depth_pure, mean. rewrite !length_map.
  apply div_eqv. apply Qsum_compat.
  eapply Forall_impl; [|exact Hm].
  intros p Hp. cbv beta. exact (abs_times_mask _ _ Hp).
Qed.

(** C5: with a validity mask (no negative entry), the loss of every
    iteration is [(1 - lambda) * L1 + lambda * (1 - ssim) + wavelet_loss]
    plus the depth term [weight * mean(|rendered - reference| * mask)]
    exactly when the weight is positive and the viewpoint is
    depth-reliable, and plus zero otherwise. *)
Theorem loss_is_spec_loss opt depth_l1_weight iteration Ll1 ssim_value level_loss
    depth_reliable depth :
  Forall (fun p => 0 <= depth_mask p)%Q depth ->
  eqv (loss opt depth_l1_weight iteration Ll1 ssim_value level_loss depth_reliable depth)
      (spec_loss opt depth_l1_weight iteration Ll1 ssim_value level_loss
         depth_reliable depth).
Proof.
  intros Hm. unfold loss, spec_loss, spec_depth_term.
  destruct (TVal.Qltb 0 (depth_l1_weight iteration) && depth_reliable).
  - apply add_eqv; [reflexivity|]. apply mul_eqv. now apply Ll1depth_pure_spec.
  - simpl. ring.
Qed.

Lemma loss_is_spec_loss_witness :
  eqv (loss default_opt (fun _ => 1 # 2) 10 (1 # 10) (9 # 10) (fun _ => 1%Q) true
         [mkDepthPixel 1 3 1; mkDepthPixel 2 2 0])
      (spec_loss default_opt (fun _ => 1 # 2) 10 (1 # 10) (9 # 10) (fun _ => 1%Q) true
         [mkDepthPixel 1 3 1; mkDepthPixel 2 2 0]).
Proof.
  apply (loss_is_spec_loss default_opt (fun _ => 1 # 2) 10 (1 # 10) (9 # 10)
           (fun _ => 1%Q) true [mkDepthPixel 1 3 1; mkDepthPixel 2 2 0]).
  repeat constructor; simpl; discriminate.
Defined.

(** The depth branch is taken exactly when the weight is positive and the
    viewpoint depth-reliable; without it the loss is the three-term sum. *)
Lemma loss_without_depth opt depth_l1_weight iteration Ll1 ssim_value level_loss depth :
  loss opt depth_l1_weight iteration Ll1 ssim_value level_loss false depth
  = Fin ((1 - lambda_dssim opt) * Ll1 + lambda_dssim opt * (1 - ssim_value)
         + wavelet_loss opt iteration level_loss)%Q.
Proof.
  unfold loss. rewrite andb_false_r. reflexivity.
Qed.

End LossFacts.

(** ** The training loop *)

Lemma masked_update_total {A B : Type} (f : A -> B -> A) mask cur new :
  List.length mask = List.length cur -> List.length cur = List.length new ->
  exists r, masked_update f mask cur new = Some r.
Proof.
  revert cur new. induction mask as [|b mask IH]; intros [|c cur] [|n new];
    simpl; try discriminate; intros H1 H2.
  - eauto.
  - destruct (IH cur new) as [r Hr]; [congruence|congruence|].
    rewrite Hr. simpl. eauto.
Qed.

Lemma masked_update_length {A B : Type} (f : A -> B -> A) mask cur new r :
  masked_update f mask cur new = Some r -> List.length r = List.length cur.
Proof.
  revert cur new r. induction mask as [|b mask IH]; intros [|c cur] [|n new] r;
    simpl; try discriminate.
  - intros [= <-]. reflexivity.
  - destruct (masked_update f mask cur new) as [r'|] eqn:E; simpl; [|discriminate].
    intros [= <-]. simpl. f_equal. eauto.
Qed.

(** Entry [k] of a masked assignment: combined with the new value where the
    mask is set, left alone where it is not. *)
Lemma masked_update_nth {A B : Type} (f : A -> B -> A) mask cur new r :
  masked_update f mask cur new = Some r ->
  forall k b c n,
    nth_error mask k = Some b -> nth_error cur k = Some c ->
    nth_error new k = Some n ->
    nth_error r k = Some (if b then f c n else c).
Proof.
  revert cur new r. induction mask as [|b0 mask IH]; intros [|c0 cur] [|n0 new] r;
    simpl; try discriminate.
  - intros _ [|k] b c n; discriminate.
  - destruct (masked_update f mask cur new) as [r'|] eqn:E; simpl; [|discriminate].
    intros [= <-] [|k] b c n; simpl.
    + intros [= <-] [= <-] [= <-]. reflexivity.
    + apply (IH cur new r' E).
Qed.

Module LocalizerTotal.
Import Localizer.

Lemma quantile_total input q :
  input <> [] -> exists c, TVal.quantile input q = Some c.
Proof.
  destruct input as [|v input]; [congruence|]. intros _.
  unfold TVal.quantile.
  destruct (existsb TVal.is_nan (v :: input)); eauto.
Qed.

Lemma discrepancy_mask_total opt iteration d :
  d <> [] ->
  exists m, discrepancy_mask opt iteration d = Some m /\
            List.length m = List.length d.
Proof.
  intros Hd. unfold discrepancy_mask, cutoff, normalized_tensor.
  destruct d as [|x d]; [congruence|]. simpl tensor_max. simpl tensor_min.
  cbv iota beta.
  match goal with
  | |- context [TVal.quantile ?l ?q] =>
      destruct (quantile_total l q) as [c Hc]; [discriminate|]; rewrite Hc
  end.
  eexists. split; [reflexivity|]. now rewrite length_map.
Qed.

Lemma localizer_total opt iteration d rows :
  d <> [] -> List.length d = List.length rows ->
  exists r, localizer opt iteration d rows = Some r.
Proof.
  intros Hd Hlen. unfold localizer.
  destruct (discrepancy_mask_total opt iteration d Hd) as [m [Hm Hl]].
  rewrite Hm. unfold gaussians_to_densify, mask_select, first3.
  rewrite length_map.
  replace (List.length m =? List.length rows)%nat with true; [eauto|].
  symmetry. apply Nat.eqb_eq. congruence.
Qed.

End LocalizerTotal.

Lemma bind_Some {A B : Type} (m : option A) (k : A -> option B) b :
  bind m k = Some b -> exists a, m = Some a /\ k a = Some b.
Proof. destruct m as [a|]; simpl; [eauto|discriminate]. Qed.

Lemma pymod_Some a b : b <> 0 -> pymod a b = Some (a mod b).
Proof.
  intros Hb. unfold pymod. destruct (Z.eqb_spec b 0); [contradiction|reflexivity].
Qed.

Lemma pymod_inv a b m : pymod a b = Some m -> b <> 0 /\ m = a mod b.
Proof.
  unfold pymod. destruct (Z.eqb_spec b 0); [discriminate|].
  intros [= <-]. auto.
Qed.

Lemma mem_In x l : mem x l = true <-> In x l.
Proof.
  unfold mem. rewrite existsb_exists. split.
  - intros [y [Hy Hxy]]. apply Z.eqb_eq in Hxy. now subst.
  - intros H. exists x. split; trivial. apply Z.eqb_refl.
Qed.

Section LoopFacts.

Context {Params Grad : Type}.
Variable accumulate : option Grad -> Grad -> Grad.
Variable densify_and_prune :
  GaussianModel Params -> option Z -> list Z -> option (list Z) -> GaussianModel Params.
Variable reset_opacity : Params -> Params.
Variable exposure_step : Params -> option Grad -> Params.
Variable dense_step : Params -> option Grad -> Params.
Variable sparse_step : list bool -> nat -> Params -> option Grad -> Params.
Variable SPARSE_ADAM_AVAILABLE : bool.

Local Abbreviation control := (population_control densify_and_prune reset_opacity).
Local Abbreviation densify := (densification densify_and_prune reset_opacity).
Local Abbreviation optimize :=
  (optimizer_stage exposure_step dense_step sparse_step SPARSE_ADAM_AVAILABLE).
Local Abbreviation iterate :=
  (train_iteration accumulate densify_and_prune reset_opacity exposure_step
     dense_step sparse_step SPARSE_ADAM_AVAILABLE).

(** *** The flagged set handed to the controller *)

Lemma gaussians_to_densify_inv opt iteration (inp : IterInput Grad) flagged :
  gaussians_to_densify opt iteration inp = Some flagged ->
  (Localizer.active opt iteration = true /\
   exists r, Localizer.localizer opt iteration (per_pixel_discrepancy inp)
               (pixel_to_gaussians inp) = Some r /\ flagged = Some r)
  \/ (Localizer.active opt iteration = false /\ flagged = None).
Proof.
  unfold gaussians_to_densify.
  destruct (Localizer.active opt iteration).
  - intros H. apply bind_Some in H. destruct H as [r [Hr [= <-]]]. left. eauto.
  - intros [= <-]. right. auto.
Qed.

Lemma gaussians_to_densify_total opt iteration (inp : IterInput Grad)
    (g : GaussianModel Params) :
  well_shaped inp g ->
  exists flagged, gaussians_to_densify opt iteration inp = Some flagged.
Proof.
  intros (_ & _ & _ & _ & _ & Hne & Hlen). unfold gaussians_to_densify.
  destruct (Localizer.active opt iteration); [|eauto].
  destruct (LocalizerTotal.localizer_total opt iteration _ _ Hne Hlen) as [r Hr].
  rewrite Hr. simpl. eauto.
Qed.

(** *** The running statistics *)

Lemma statistics_update_total (inp : IterInput Grad) (g : GaussianModel Params) :
  well_shaped inp g -> exists g1, statistics_update inp g = Some g1.
Proof.
  intros (H1 & H2 & H3 & H4 & H5 & _). unfold statistics_update, update_max_radii.
  destruct (masked_update_total Z.max (visibility_filter inp) (max_radii2D g)
              (radii inp) H1 H2) as [r Hr].
  rewrite Hr. simpl. unfold add_densification_stats. simpl.
  destruct (masked_update_total Qplus (visibility_filter inp) (xyz_gradient_accum g)
              (viewspace_grad_norm inp) H3 H5) as [a Ha].
  rewrite Ha. simpl.
  destruct (masked_update_total (fun n (_ : Q) => n + 1) (visibility_filter inp)
              (denom g) (viewspace_grad_norm inp) H4) as [d Hd]; [congruence|].
  rewrite Hd. simpl. eauto.
Qed.

Lemma statistics_update_inv (inp : IterInput Grad) (g g1 : GaussianModel Params) :
  statistics_update inp g = Some g1 ->
  params g1 = params g /\
  masked_update Z.max (visibility_filter inp) (max_radii2D g) (radii inp)
    = Some (max_radii2D g1) /\
  masked_update Qplus (visibility_filter inp) (xyz_gradient_accum g)
    (viewspace_grad_norm inp) = Some (xyz_gradient_accum g1) /\
  masked_update (fun n (_ : Q) => n + 1) (visibility_filter inp) (denom g)
    (viewspace_grad_norm inp) = Some (denom g1).
Proof.
  unfold statistics_update, update_max_radii, add_densification_stats.
  intros H.
  apply bind_Some in H. destruct H as [g0 [H0 H]].
  apply bind_Some in H0. destruct H0 as [r [Hr [= <-]]].
  apply bind_Some in H. destruct H as [a [Ha H]].
  apply bind_Some in H. destruct H as [d [Hd [= <-]]].
  simpl in *. auto.
Qed.

(** *** The densification block *)

Lemma population_control_total opt white iteration (inp : IterInput Grad) flagged g :
  densification_interval opt <> 0 -> opacity_reset_interval opt <> 0 ->
  exists g', control opt white iteration inp flagged g
             = Some (g', control_events opt white iteration flagged).
Proof.
  intros Hd Hr. unfold population_control, control_events, densify_due, reset_due.
  rewrite (pymod_Some _ _ Hr).
  destruct (densify_from_iter opt <? iteration); simpl.
  - rewrite (pymod_Some _ _ Hd). simpl.
    destruct (iteration mod densification_interval opt =? 0); simpl;
      destruct ((iteration mod opacity_reset_interval opt =? 0)
                || white && (iteration =? densify_from_iter opt)); simpl; eauto.
  - destruct ((iteration mod opacity_reset_interval opt =? 0)
              || white && (iteration =? densify_from_iter opt)); simpl; eauto.
Qed.

Lemma population_control_inv opt white iteration (inp : IterInput Grad) flagged g g' evs :
  control opt white iteration inp flagged g = Some (g', evs) ->
  evs = control_events opt white iteration flagged.
Proof.
  unfold population_control, control_events, densify_due, reset_due. intros H.
  apply bind_Some in H. destruct H as [grown [Hg H]].
  apply bind_Some in H. destruct H as [m [Hm H]].
  apply pymod_inv in Hm. destruct Hm as [_ ->].
  destruct (densify_from_iter opt <? iteration); simpl in *.
  - apply bind_Some in Hg. destruct Hg as [m' [Hm' Hg]].
    apply pymod_inv in Hm'. destruct Hm' as [_ ->].
    destruct (iteration mod densification_interval opt =? 0);
      injection Hg as <-;
      destruct ((iteration mod opacity_reset_interval opt =? 0)
                || white && (iteration =? densify_from_iter opt));
      injection H as _ <-; reflexivity.
  - injection Hg as <-.
    destruct ((iteration mod opacity_reset_interval opt =? 0)
              || white && (iteration =? densify_from_iter opt));
      injection H as _ <-; reflexivity.
Qed.

Lemma densification_total opt white iteration (inp : IterInput Grad) flagged g :
  well_shaped inp g ->
  densification_interval opt <> 0 -> opacity_reset_interval opt <> 0 ->
  exists g', densify opt white iteration inp flagged g
             = Some (g', if iteration <? densify_until_iter opt
                         then control_events opt white iteration flagged else []).
Proof.
  intros Hw Hd Hr. unfold densification.
  destruct (iteration <? densify_until_iter opt); [|eauto].
  destruct (statistics_update_total inp g Hw) as [g1 Hg1]. rewrite Hg1. simpl.
  apply population_control_total; assumption.
Qed.

Lemma densification_inv opt white iteration (inp : IterInput Grad) flagged g g' evs :
  densify opt white iteration inp flagged g = Some (g', evs) ->
  evs = (if iteration <? densify_until_iter opt
         then control_events opt white iteration flagged else []) /\
  (densify_until_iter opt <= iteration -> g' = g).
Proof.
  unfold densification.
  destruct (Z.ltb_spec iteration (densify_until_iter opt)) as [Hlt|Hge].
  - intros H. apply bind_Some in H. destruct H as [g1 [_ H]].
    apply population_control_inv in H. split; [exact H|lia].
  - intros [= <- <-]. auto.
Qed.

(** *** The optimizer step *)

Lemma optimizer_stage_events opt iteration (inp : IterInput Grad) s :
  snd (optimize opt iteration inp s)
  = if iteration <? iterations opt then [OptimizerStep] else [].
Proof.
  unfold optimizer_stage. destruct (iteration <? iterations opt); reflexivity.
Qed.

Lemma optimizer_stage_last opt iteration (inp : IterInput Grad) s :
  iterations opt <= iteration -> optimize opt iteration inp s = (s, []).
Proof.
  intros H. unfold optimizer_stage.
  destruct (Z.ltb_spec iteration (iterations opt)); [lia|reflexivity].
Qed.

Lemma optimizer_stage_clears opt iteration (inp : IterInput Grad) s :
  iteration < iterations opt -> grad (fst (optimize opt iteration inp s)) = None.
Proof.
  intros H. unfold optimizer_stage.
  destruct (Z.ltb_spec iteration (iterations opt)); [reflexivity|lia].
Qed.

(** *** One iteration *)

Lemma train_iteration_inv opt white saving ckpt iteration inp s s' evs :
  iterate opt white saving ckpt iteration inp s = Some (s', evs) ->
  exists flagged g1 devs,
    gaussians_to_densify opt iteration inp = Some flagged /\
    densify opt white iteration inp flagged (gaussians s) = Some (g1, devs) /\
    optimize opt iteration inp (mkState g1 (backward accumulate iteration inp (grad s)))
    = (s', if iteration <? iterations opt then [OptimizerStep] else []) /\
    evs = (if mem iteration saving
           then [Save iteration (params (gaussians s))] else [])
          ++ devs
          ++ (if iteration <? iterations opt then [OptimizerStep] else [])
          ++ (if mem iteration ckpt then [Checkpoint (gaussians s') iteration] else []).
Proof.
  unfold train_iteration. intros H.
  apply bind_Some in H. destruct H as [flagged [Hf H]].
  apply bind_Some in H. destruct H as [[g1 devs] [Hd H]]. simpl in H.
  pose proof (optimizer_stage_events opt iteration inp
                (mkState g1 (backward accumulate iteration inp (grad s)))) as He.
  destruct (optimize opt iteration inp
              (mkState g1 (backward accumulate iteration inp (grad s))))
    as [s2 stepped] eqn:E.
  simpl in He. subst stepped. injection H as <- <-.
  exists flagged, g1, devs. auto.
Qed.

Lemma train_iteration_total opt white saving ckpt iteration inp s :
  well_shaped inp (gaussians s) ->
  densification_interval opt <> 0 -> opacity_reset_interval opt <> 0 ->
  exists s' evs, iterate opt white saving ckpt iteration inp s = Some (s', evs).
Proof.
  intros Hw Hd Hr. unfold train_iteration.
  destruct (gaussians_to_densify_total opt iteration inp _ Hw) as [flagged Hf].
  rewrite Hf. simpl.
  destruct (densification_total opt white iteration inp flagged _ Hw Hd Hr) as [g' Hg].
  rewrite Hg. simpl.
  destruct (optimize opt iteration inp _) as [s2 stepped]. eauto.
Qed.

(** Which events of an iteration can be a reset, a growth call or an
    optimizer step: only the ones the respective block logs. *)
Lemma in_iteration_events (e : event Params) iteration p0 devs c saving ckpt (b : bool) :
  In e ((if mem iteration saving then [Save iteration p0] else [])
        ++ devs
        ++ (if b then [OptimizerStep] else [])
        ++ (if mem iteration ckpt then [Checkpoint c iteration] else [])) <->
  (mem iteration saving = true /\ e = Save iteration p0) \/ In e devs
  \/ (b = true /\ e = OptimizerStep)
  \/ (mem iteration ckpt = true /\ e = Checkpoint c iteration).
Proof.
  rewrite !in_app_iff.
  destruct (mem iteration saving), b, (mem iteration ckpt); simpl;
    intuition (try discriminate; auto).
Qed.

Lemma in_control_events_reset opt white iteration flagged :
  In (@ResetOpacity Params) (control_events opt white iteration flagged) <->
  reset_due opt white iteration = true.
Proof.
  unfold control_events. rewrite in_app_iff.
  destruct (densify_due opt iteration), (reset_due opt white iteration); simpl;
    intuition discriminate.
Qed.

Lemma in_control_events_densify opt white iteration flagged sz fl :
  In (@DensifyAndPrune Params sz fl) (control_events opt white iteration flagged) ->
  densify_due opt iteration = true /\ fl = flagged.
Proof.
  unfold control_events. rewrite in_app_iff.
  destruct (densify_due opt iteration), (reset_due opt white iteration); simpl;
    intuition (try discriminate; try congruence).
Qed.

Lemma in_control_events_step opt white iteration flagged :
  ~ In (@OptimizerStep Params) (control_events opt white iteration flagged).
Proof.
  unfold control_events. rewrite in_app_iff.
  destruct (densify_due opt iteration), (reset_due opt white iteration); simpl;
    intuition discriminate.
Qed.

Lemma reset_due_spec opt white iteration :
  reset_due opt white iteration = true <->
  iteration mod opacity_reset_interval opt = 0
  \/ (white = true /\ iteration = densify_from_iter opt).
Proof.
  unfold reset_due. rewrite orb_true_iff, andb_true_iff, !Z.eqb_eq. tauto.
Qed.

(** C6, as amended: at every iteration strictly before
    [densify_until_iter], on agreeing shapes, the statistics update is
    defined and its result is what the growth and reset steps go on from; it
    leaves the parameters alone, and at every index takes the maximum with
    the current screen radius, adds the gradient magnitude and counts one
    visit where the primitive is visible, changing nothing where it is not. *)
Theorem statistics_tracked_before_window_end opt white iteration
    (inp : IterInput Grad) flagged (g : GaussianModel Params) :
  iteration < densify_until_iter opt ->
  well_shaped inp g ->
  exists g1,
    statistics_update inp g = Some g1 /\
    densify opt white iteration inp flagged g
    = control opt white iteration inp flagged g1 /\
    params g1 = params g /\
    forall k v c r a gn n,
      nth_error (visibility_filter inp) k = Some v ->
      nth_error (max_radii2D g) k = Some c ->
      nth_error (radii inp) k = Some r ->
      nth_error (xyz_gradient_accum g) k = Some a ->
      nth_error (viewspace_grad_norm inp) k = Some gn ->
      nth_error (denom g) k = Some n ->
      nth_error (max_radii2D g1) k = Some (if v then Z.max c r else c) /\
      nth_error (xyz_gradient_accum g1) k = Some (if v then (a + gn)%Q else a) /\
      nth_error (denom g1) k = Some (if v then n + 1 else n).
Proof.
  intros Hlt Hw.
  destruct (statistics_update_total inp g Hw) as [g1 Hg1].
  exists g1. split; [exact Hg1|].
  destruct (statistics_update_inv inp g g1 Hg1) as (Hp & Hr & Ha & Hd).
  split; [|split; [exact Hp|]].
  - unfold densification.
    destruct (Z.ltb_spec iteration (densify_until_iter opt)); [|lia].
    rewrite Hg1. reflexivity.
  - intros k v c r a gn n Hv Hc Hrk Hak Hgn Hn. repeat split.
    + exact (masked_update_nth _ _ _ _ _ Hr k v c r Hv Hc Hrk).
    + exact (masked_update_nth _ _ _ _ _ Ha k v a gn Hv Hak Hgn).
    + exact (masked_update_nth _ _ _ _ _ Hd k v n gn Hv Hn Hgn).
Qed.

(** C7, as amended: on agreeing shapes and non-zero intervals an iteration
    completes, and it resets the opacities if and only if it lies strictly
    before [densify_until_iter] and is a multiple of
    [opacity_reset_interval], or the background is white and it is
    [densify_from_iter]. *)
Theorem opacity_reset_schedule opt white saving ckpt iteration inp s :
  well_shaped inp (gaussians s) ->
  densification_interval opt <> 0 -> opacity_reset_interval opt <> 0 ->
  exists s' evs,
    iterate opt white saving ckpt iteration inp s = Some (s', evs) /\
    (In ResetOpacity evs <->
     iteration < densify_until_iter opt /\
     (iteration mod opacity_reset_interval opt = 0
      \/ (white = true /\ iteration = densify_from_iter opt))).
Proof.
  intros Hw Hd Hr.
  destruct (train_iteration_total opt white saving ckpt iteration inp s Hw Hd Hr)
    as [s' [evs H]].
  exists s', evs. split; [exact H|].
  apply train_iteration_inv in H.
  destruct H as (flagged & g1 & devs & _ & Hdens & _ & ->).
  apply densification_inv in Hdens. destruct Hdens as [-> _].
  rewrite in_iteration_events, <- reset_due_spec.
  destruct (Z.ltb_spec iteration (densify_until_iter opt)) as [Hlt|Hge].
  - rewrite in_control_events_reset. intuition discriminate.
  - simpl. intuition (try discriminate; try lia).
Qed.

(** C8: when the configuration selects [sparse_adam] and the implementation
    is unavailable, [training] ends in [sys.exit] with a non-empty message
    and exit status 1, whatever the other arguments; no iteration is run and
    no optimizer is chosen in its place. *)
Theorem sparse_adam_unavailable_is_fatal opt white saving ckpt render first_iter init :
  SPARSE_ADAM_AVAILABLE = false ->
  optimizer_type opt = "sparse_adam"%string ->
  exists message,
    training accumulate densify_and_prune reset_opacity exposure_step dense_step
      sparse_step SPARSE_ADAM_AVAILABLE opt white saving ckpt render first_iter init
    = Exit 1 message /\
    message <> EmptyString /\ 1 <> 0.
Proof.
  intros Ha Ht. unfold training. rewrite Ha, Ht. simpl.
  eexists. split; [reflexivity|]. split; [discriminate|lia].
Qed.

(** C9: whenever an iteration calls [densify_and_prune], the iteration lies
    strictly inside the growth window on a multiple of the densification
    interval, the localizer ran in that iteration, and the flagged set
    passed is the localizer's result, not [None]. *)
Theorem densify_and_prune_gets_localized_set opt white saving ckpt iteration inp s
    s' evs size_threshold flagged :
  iterate opt white saving ckpt iteration inp s = Some (s', evs) ->
  In (DensifyAndPrune size_threshold flagged) evs ->
  densify_from_iter opt < iteration < densify_until_iter opt /\
  iteration mod densification_interval opt = 0 /\
  Localizer.active opt iteration = true /\
  exists r,
    Localizer.localizer opt iteration (per_pixel_discrepancy inp)
      (pixel_to_gaussians inp) = Some r /\
    flagged = Some r.
Proof.
  intros H Hin. apply train_iteration_inv in H.
  destruct H as (fl & g1 & devs & Hfl & Hdens & _ & ->).
  apply densification_inv in Hdens. destruct Hdens as [-> _].
  apply in_iteration_events in Hin.
  destruct Hin as [[_ Hin]|[Hin|[[_ Hin]|[_ Hin]]]]; try discriminate.
  destruct (Z.ltb_spec iteration (densify_until_iter opt)) as [Hlt|Hge];
    [|contradiction].
  apply in_control_events_densify in Hin. destruct Hin as [Hdue ->].
  unfold densify_due in Hdue. apply andb_true_iff in Hdue.
  destruct Hdue as [Hfrom Hmod].
  apply Z.ltb_lt in Hfrom. apply Z.eqb_eq in Hmod.
  assert (Hact : Localizer.active opt iteration = true).
  { unfold Localizer.active. apply andb_true_iff.
    split; apply Z.leb_le; lia. }
  repeat split; trivial.
  destruct (gaussians_to_densify_inv opt iteration inp fl Hfl)
    as [[_ Hr]|[Hoff _]]; [exact Hr|congruence].
Qed.

(** C10, as amended: at the last iteration, on agreeing shapes and non-zero
    intervals, the iteration completes without an optimizer step; the
    gradients of the backward pass are left in place; the population is the
    one the densification block left, the very one of the start of the
    iteration when the growth window is over; a save holds the parameters of
    the start of the iteration and a checkpoint the final population; and
    population and log are the same whatever the gradients of the parameters
    are. *)
Theorem final_iteration_skips_optimizer opt white saving ckpt inp s :
  well_shaped inp (gaussians s) ->
  densification_interval opt <> 0 -> opacity_reset_interval opt <> 0 ->
  exists s' evs,
    iterate opt white saving ckpt (iterations opt) inp s = Some (s', evs) /\
    ~ In OptimizerStep evs /\
    grad s' = backward accumulate (iterations opt) inp (grad s) /\
    (exists flagged devs,
       gaussians_to_densify opt (iterations opt) inp = Some flagged /\
       densify opt white (iterations opt) inp flagged (gaussians s)
       = Some (gaussians s', devs)) /\
    (densify_until_iter opt <= iterations opt -> gaussians s' = gaussians s) /\
    (forall i p, In (Save i p) evs -> p = params (gaussians s)) /\
    (forall c i, In (Checkpoint c i) evs -> c = gaussians s') /\
    (forall lg wg g0,
       exists s2,
         iterate opt white saving ckpt (iterations opt) (with_grads inp lg wg)
           (mkState (gaussians s) g0) = Some (s2, evs) /\
         gaussians s2 = gaussians s').
Proof.
  intros Hw Hd Hr.
  destruct (train_iteration_total opt white saving ckpt (iterations opt) inp s Hw Hd Hr)
    as [s' [evs H]].
  exists s', evs. split; [exact H|].
  pose proof H as Hinv. apply train_iteration_inv in Hinv.
  destruct Hinv as (fl & g1 & devs & Hfl & Hdens & Hopt & Hevs).
  rewrite optimizer_stage_last in Hopt by lia. rewrite Z.ltb_irrefl in Hopt.
  injection Hopt as Hs'. subst s'. cbn [gaussians grad] in *.
  pose proof (densification_inv _ _ _ _ _ _ _ _ Hdens) as [Hdevs Hsame].
  assert (Hnostep : ~ In (@OptimizerStep Params) devs).
  { rewrite Hdevs. destruct (iterations opt <? densify_until_iter opt);
      [apply in_control_events_step|simpl; tauto]. }
  repeat split.
  - rewrite Hevs, in_iteration_events, Z.ltb_irrefl.
    intros [[_ Hin]|[Hin|[[Hin _]|[_ Hin]]]]; try discriminate. auto.
  - exists fl, devs. auto.
  - exact Hsame.
  - intros i p Hin. rewrite Hevs in Hin. apply in_iteration_events in Hin.
    destruct Hin as [[_ Hin]|[Hin|[[_ Hin]|[_ Hin]]]]; try discriminate.
    + congruence.
    + exfalso. rewrite Hdevs in Hin.
      destruct (iterations opt <? densify_until_iter opt); [|contradiction].
      unfold control_events in Hin. apply in_app_iff in Hin.
      destruct (densify_due opt (iterations opt)),
        (reset_due opt white (iterations opt)); simpl in Hin;
        intuition discriminate.
  - intros c i Hin. rewrite Hevs in Hin. apply in_iteration_events in Hin.
    destruct Hin as [[_ Hin]|[Hin|[[_ Hin]|[_ Hin]]]]; try discriminate.
    + exfalso. rewrite Hdevs in Hin.
      destruct (iterations opt <? densify_until_iter opt); [|contradiction].
      unfold control_events in Hin. apply in_app_iff in Hin.
      destruct (densify_due opt (iterations opt)),
        (reset_due opt white (iterations opt)); simpl in Hin;
        intuition discriminate.
    + congruence.
  - intros lg wg g0.
    exists (mkState g1 (backward accumulate (iterations opt) (with_grads inp lg wg) g0)).
    split; [|reflexivity].
    unfold train_iteration.
    change (gaussians_to_densify opt (iterations opt) (with_grads inp lg wg))
      with (gaussians_to_densify opt (iterations opt) inp).
    rewrite Hfl. simpl.
    change (densify opt white (iterations opt) (with_grads inp lg wg) fl (gaussians s))
      with (densify opt white (iterations opt) inp fl (gaussians s)).
    rewrite Hdens. simpl.
    rewrite optimizer_stage_last by lia. simpl.
    rewrite Hevs. rewrite Z.ltb_irrefl. reflexivity.
Qed.

End LoopFacts.

(** ** The loop on concrete inputs *)

Module LoopExamples.

Lemma statistics_tracked_before_window_end_witness :
  exists g1,
    statistics_update Toy.inp (gaussians Toy.s0) = Some g1 /\
    densification Toy.densify_and_prune Toy.reset_opacity default_opt false 600
      Toy.inp (Some [0]) (gaussians Toy.s0)
    = population_control Toy.densify_and_prune Toy.reset_opacity default_opt false
        600 Toy.inp (Some [0]) g1 /\
    params g1 = params (gaussians Toy.s0) /\
    forall k v c r a gn n,
      nth_error (visibility_filter Toy.inp) k = Some v ->
      nth_error (max_radii2D (gaussians Toy.s0)) k = Some c ->
      nth_error (radii Toy.inp) k = Some r ->
      nth_error (xyz_gradient_accum (gaussians Toy.s0)) k = Some a ->
      nth_error (viewspace_grad_norm Toy.inp) k = Some gn ->
      nth_error (denom (gaussians Toy.s0)) k = Some n ->
      nth_error (max_radii2D g1) k = Some (if v then Z.max c r else c) /\
      nth_error (xyz_gradient_accum g1) k = Some (if v then (a + gn)%Q else a) /\
      nth_error (denom g1) k = Some (if v then n + 1 else n).
Proof.
  apply (statistics_tracked_before_window_end Toy.densify_and_prune
           Toy.reset_opacity default_opt false 600 Toy.inp (Some [0])
           (gaussians Toy.s0)).
  - simpl. lia.
  - unfold well_shaped. simpl. repeat split; discriminate.
Defined.

(** C6 as stated fails: at iteration 15000, the window end of the default
    configuration, a visible primitive of screen radius 5 keeps its recorded
    maximum 0. *)
Lemma statistics_frozen_from_window_end :
  ~ (forall opt white saving ckpt iteration inp s s' evs,
       Toy.train_iteration opt white saving ckpt iteration inp s = Some (s', evs) ->
       forall k c r,
         nth_error (visibility_filter inp) k = Some true ->
         nth_error (max_radii2D (gaussians s)) k = Some c ->
         nth_error (radii inp) k = Some r ->
         nth_error (max_radii2D (gaussians s')) k = Some (Z.max c r)).
Proof.
  intros H.
  specialize (H default_opt false [] [] 15000 Toy.inp Toy.s0 _ _ eq_refl
                0%nat 0 5 eq_refl eq_refl eq_refl).
  discriminate H.
Qed.

Lemma opacity_reset_schedule_witness :
  exists s' evs,
    Toy.train_iteration default_opt true [] [] 500 Toy.inp Toy.s0 = Some (s', evs) /\
    (In ResetOpacity evs <->
     500 < densify_until_iter default_opt /\
     (500 mod opacity_reset_interval default_opt = 0
      \/ (true = true /\ 500 = densify_from_iter default_opt))).
Proof.
  apply (opacity_reset_schedule Toy.accumulate Toy.densify_and_prune
           Toy.reset_opacity Toy.step Toy.step Toy.sparse_step false
           default_opt true [] [] 500 Toy.inp Toy.s0).
  - unfold well_shaped. simpl. repeat split; discriminate.
  - simpl. lia.
  - simpl. lia.
Defined.

(** C7 as stated fails: iteration 15000 is a multiple of the reset interval
    3000 of the default configuration, and no reset is performed. *)
Lemma reset_skipped_from_window_end :
  ~ (forall opt white saving ckpt iteration inp s s' evs,
       Toy.train_iteration opt white saving ckpt iteration inp s = Some (s', evs) ->
       (In ResetOpacity evs <->
        iteration mod opacity_reset_interval opt = 0
        \/ (white = true /\ iteration = densify_from_iter opt))).
Proof.
  intros H.
  specialize (H default_opt false [] [] 15000 Toy.inp Toy.s0 _ _ eq_refl).
  destruct H as [_ H].
  assert (Hin : In (@ResetOpacity unit) [OptimizerStep]) by (apply H; left; reflexivity).
  simpl in Hin. destruct Hin as [Hin|[]]. discriminate Hin.
Qed.

Lemma sparse_adam_unavailable_is_fatal_witness :
  exists message,
    Toy.training false Toy.sparse_opt false [7000; 30000] [] (fun _ _ => Toy.inp) 0 Toy.s0
    = Exit 1 message /\
    message <> EmptyString /\ 1 <> 0.
Proof.
  apply (sparse_adam_unavailable_is_fatal Toy.accumulate Toy.densify_and_prune
           Toy.reset_opacity Toy.step Toy.step Toy.sparse_step false
           Toy.sparse_opt false [7000; 30000] [] (fun _ _ => Toy.inp) 0 Toy.s0).
  - reflexivity.
  - reflexivity.
Defined.

Lemma densify_and_prune_gets_localized_set_witness :
  densify_from_iter default_opt < 600 < densify_until_iter default_opt /\
  600 mod densification_interval default_opt = 0 /\
  Localizer.active default_opt 600 = true /\
  exists r,
    Localizer.localizer default_opt 600 (per_pixel_discrepancy Toy.inp)
      (pixel_to_gaussians Toy.inp) = Some r /\
    Some [0] = Some r.
Proof.
  apply (densify_and_prune_gets_localized_set Toy.accumulate Toy.densify_and_prune
           Toy.reset_opacity Toy.step Toy.step Toy.sparse_step false
           default_opt false [] [] 600 Toy.inp Toy.s0
           (mkState (mkGaussians tt [5] [0 + 1]%Q [1]) None)
           [DensifyAndPrune None (Some [0]); OptimizerStep] None (Some [0])).
  - vm_compute. reflexivity.
  - simpl. left. reflexivity.
Defined.

Lemma final_iteration_skips_optimizer_witness :
  exists s' evs,
    Toy.train_iteration default_opt false [7000; 30000] [30000]
      (iterations default_opt) Toy.inp Toy.s0 = Some (s', evs) /\
    ~ In OptimizerStep evs /\
    grad s' = backward Toy.accumulate (iterations default_opt) Toy.inp (grad Toy.s0) /\
    (exists flagged devs,
       gaussians_to_densify default_opt (iterations default_opt) Toy.inp
       = Some flagged /\
       densification Toy.densify_and_prune Toy.reset_opacity default_opt false
         (iterations default_opt) Toy.inp flagged (gaussians Toy.s0)
       = Some (gaussians s', devs)) /\
    (densify_until_iter default_opt <= iterations default_opt ->
     gaussians s' = gaussians Toy.s0) /\
    (forall i p, In (Save i p) evs -> p = params (gaussians Toy.s0)) /\
    (forall c i, In (Checkpoint c i) evs -> c = gaussians s') /\
    (forall lg wg g0,
       exists s2,
         Toy.train_iteration default_opt false [7000; 30000] [30000]
           (iterations default_opt) (with_grads Toy.inp lg wg)
           (mkState (gaussians Toy.s0) g0) = Some (s2, evs) /\
         gaussians s2 = gaussians s').
Proof.
  apply (final_iteration_skips_optimizer Toy.accumulate Toy.densify_and_prune
           Toy.reset_opacity Toy.step Toy.step Toy.sparse_step false
           default_opt false [7000; 30000] [30000] Toy.inp Toy.s0).
  - unfold well_shaped. simpl. repeat split; discriminate.
  - simpl. lia.
  - simpl. lia.
Defined.

End LoopExamples.

(** ** Viewpoint sampling *)

Module SamplerFacts.
Import Sampler.

Lemma remove_nth_perm {A : Type} (l : list A) n x :
  nth_error l n = Some x -> Permutation l (x :: remove_nth n l).
Proof.
  revert n. induction l as [|a l IH]; intros [|n]; simpl; try discriminate.
  - intros [= ->]. apply Permutation_refl.
  - intros H. apply IH in H.
    eapply Permutation_trans; [apply perm_skip; exact H|]. apply perm_swap.
Qed.

Lemma remove_nth_length {A : Type} (l : list A) n x :
  nth_error l n = Some x -> S (List.length (remove_nth n l)) = List.length l.
Proof.
  revert n. induction l as [|a l IH]; intros [|n]; simpl; try discriminate.
  - reflexivity.
  - intros H. f_equal. eauto.
Qed.

Lemma remove_nth_Forall2 {A B : Type} (P : A -> B -> Prop) l1 l2 n :
  Forall2 P l1 l2 -> Forall2 P (remove_nth n l1) (remove_nth n l2).
Proof.
  intros H. revert n. induction H as [|a b l1 l2 Hab H IH]; intros [|n]; simpl;
    try constructor; auto.
Qed.

Lemma nth_error_Forall2 {A B : Type} (P : A -> B -> Prop) l1 l2 n a b :
  Forall2 P l1 l2 -> nth_error l1 n = Some a -> nth_error l2 n = Some b -> P a b.
Proof.
  intros H. revert n. induction H as [|a0 b0 l1 l2 Hab H IH]; intros [|n]; simpl;
    try discriminate.
  - intros [= <-] [= <-]. exact Hab.
  - apply IH.
Qed.

(** A successful [pop] at a non-negative index. *)
Lemma pop_inv {A : Type} (l : list A) i x l' :
  0 <= i -> pop l i = Some (x, l') ->
  nth_error l (Z.to_nat i) = Some x /\ l' = remove_nth (Z.to_nat i) l.
Proof.
  intros Hi. unfold pop. destruct (Z.ltb_spec i 0); [lia|].
  destruct ((0 <=? i) && (i <? Z.of_nat (List.length l))); [|discriminate].
  destruct (nth_error l (Z.to_nat i)) as [y|]; [|discriminate].
  intros [= <- <-]. auto.
Qed.

Lemma pop_total {A : Type} (l : list A) i :
  0 <= i < Z.of_nat (List.length l) -> exists x l', pop l i = Some (x, l').
Proof.
  intros [Hlo Hhi]. unfold pop. destruct (Z.ltb_spec i 0); [lia|].
  destruct (Z.leb_spec 0 i); [|lia].
  destruct (Z.ltb_spec i (Z.of_nat (List.length l))); [|lia]. simpl.
  destruct (nth_error l (Z.to_nat i)) as [y|] eqn:E; [eauto|].
  apply nth_error_None in E. lia.
Qed.

Lemma randint_range n r k :
  randint 0 (n - 1) r = Some k -> 0 <= k < n.
Proof.
  unfold randint. destruct (Z.leb_spec 0 (n - 1)); [|discriminate].
  intros [= <-]. pose proof (Z.mod_pos_bound r (n - 1 - 0 + 1)). lia.
Qed.

Lemma randint_total n r : 0 < n -> exists k, randint 0 (n - 1) r = Some k.
Proof.
  intros Hn. unfold randint. destruct (Z.leb_spec 0 (n - 1)); [eauto|lia].
Qed.

Lemma aligned_from {Camera : Type} (pre l : list Camera) :
  Forall2 (fun c i => 0 <= i /\ nth_error (pre ++ l) (Z.to_nat i) = Some c)
    l (map (fun k => 0 + Z.of_nat k) (seq (List.length pre) (List.length l))).
Proof.
  revert pre. induction l as [|c l IH]; intros pre; simpl; constructor.
  - split; [lia|].
    match goal with
    | |- nth_error _ ?n = _ => replace n with (List.length pre) by lia
    end.
    rewrite nth_error_app2 by lia.
    replace (List.length pre - List.length pre)%nat with 0%nat by lia. reflexivity.
  - specialize (IH (pre ++ [c])). rewrite <- app_assoc in IH. simpl in IH.
    rewrite length_app in IH. simpl in IH.
    replace (List.length pre + 1)%nat with (S (List.length pre)) in IH by lia.
    exact IH.
Qed.

Lemma initial_pool_aligned {Camera : Type} (cameras : list Camera) :
  aligned cameras (initial_pool cameras).
Proof.
  unfold aligned, initial_pool, range. simpl.
  rewrite Z.sub_0_r, Nat2Z.id. exact (aligned_from [] cameras).
Qed.

Lemma aligned_empty {Camera : Type} (p : pool Camera) :
  aligned [] p -> viewpoint_stack p = [].
Proof.
  unfold aligned. intros H. destruct H as [|c i l1 l2 [_ Hc] _]; [reflexivity|].
  destruct (Z.to_nat i); discriminate.
Qed.

Lemma refilled_aligned {Camera : Type} (cameras : list Camera) p :
  aligned cameras p -> aligned cameras (refilled cameras p).
Proof.
  intros H. unfold refilled. destruct (viewpoint_stack p); trivial.
  apply initial_pool_aligned.
Qed.

Lemma pick_camera_inv {Camera : Type} (cameras : list Camera) r p c vind p' :
  aligned cameras p ->
  pick_camera cameras r p = Some (c, vind, p') ->
  exists n,
    nth_error (viewpoint_stack (refilled cameras p)) n = Some c /\
    nth_error (viewpoint_indices (refilled cameras p)) n = Some vind /\
    viewpoint_stack p' = remove_nth n (viewpoint_stack (refilled cameras p)) /\
    viewpoint_indices p' = remove_nth n (viewpoint_indices (refilled cameras p)).
Proof.
  intros Hal H. unfold pick_camera in H. fold (refilled cameras p) in H.
  apply bind_Some in H. destruct H as [k [Hk H]].
  apply randint_range in Hk.
  apply bind_Some in H. destruct H as [[c0 s0] [Hc H]].
  apply bind_Some in H. destruct H as [[v0 i0] [Hv H]].
  injection H as <- <- <-. simpl.
  apply pop_inv in Hc; [|lia]. apply pop_inv in Hv; [|lia].
  exists (Z.to_nat k). tauto.
Qed.

(** X1: in a pool that pairs every waiting camera with its index, a pick
    returns a camera together with the index it has among the training
    cameras, and leaves such a pool, one camera shorter than the pool it
    drew from. *)
Theorem pick_camera_returns_indexed_camera {Camera : Type}
    (cameras : list Camera) r p c vind p' :
  aligned cameras p ->
  pick_camera cameras r p = Some (c, vind, p') ->
  0 <= vind /\
  nth_error cameras (Z.to_nat vind) = Some c /\
  aligned cameras p' /\
  S (List.length (viewpoint_stack p'))
  = List.length (viewpoint_stack (refilled cameras p)).
Proof.
  intros Hal H.
  destruct (pick_camera_inv cameras r p c vind p' Hal H) as (n & Hc & Hv & Hs & Hi).
  pose proof (refilled_aligned cameras p Hal) as Hr. unfold aligned in Hr.
  destruct (nth_error_Forall2 _ _ _ n c vind Hr Hc Hv) as [Hpos Hnth].
  repeat split; trivial.
  - unfold aligned. rewrite Hs, Hi. now apply remove_nth_Forall2.
  - rewrite Hs. now apply remove_nth_length with (x := c).
Qed.

Lemma pick_camera_returns_indexed_camera_witness :
  0 <= 1 /\
  nth_error [10; 20; 30] (Z.to_nat 1) = Some 20 /\
  aligned [10; 20; 30] (mkPool [10; 30] [0; 2]) /\
  S (List.length (viewpoint_stack (mkPool [10; 30] [0; 2])))
  = List.length (viewpoint_stack (refilled [10; 20; 30] (initial_pool [10; 20; 30]))).
Proof.
  apply (pick_camera_returns_indexed_camera [10; 20; 30] 7
           (initial_pool [10; 20; 30]) 20 1 (mkPool [10; 30] [0; 2])).
  - unfold aligned. simpl. repeat constructor; simpl; lia.
  - reflexivity.
Defined.

Lemma pick_camera_total {Camera : Type} (cameras : list Camera) r p :
  aligned cameras p -> cameras <> [] ->
  exists c vind p', pick_camera cameras r p = Some (c, vind, p').
Proof.
  intros Hal Hne. unfold pick_camera. fold (refilled cameras p).
  pose proof (refilled_aligned cameras p Hal) as Hr. unfold aligned in Hr.
  pose proof (Forall2_length Hr) as Hlen.
  assert (Hpos : (0 < List.length (viewpoint_stack (refilled cameras p)))%nat).
  { unfold refilled. destruct (viewpoint_stack p) eqn:E.
    - simpl. destruct cameras; [congruence|simpl; lia].
    - rewrite E. simpl. lia. }
  destruct (randint_total (Z.of_nat (List.length (viewpoint_indices (refilled cameras p)))) r)
    as [k Hk]; [lia|].
  rewrite Hk. simpl. apply randint_range in Hk.
  destruct (pop_total (viewpoint_stack (refilled cameras p)) k) as [c [s Hc]]; [lia|].
  destruct (pop_total (viewpoint_indices (refilled cameras p)) k) as [v [i Hv]]; [lia|].
  rewrite Hc, Hv. simpl. eauto.
Qed.

(** X2: a pick raises exactly when there is no training camera. *)
Theorem pick_camera_raises_iff_no_camera {Camera : Type}
    (cameras : list Camera) r p :
  aligned cameras p ->
  (pick_camera cameras r p = None <-> cameras = []).
Proof.
  intros Hal. split.
  - intros H. destruct cameras as [|c0 cs]; [reflexivity|].
    destruct (pick_camera_total (c0 :: cs) r p Hal) as (c & v & p' & Hp);
      [discriminate|congruence].
  - intros ->. apply aligned_empty in Hal.
    unfold pick_camera. rewrite Hal. reflexivity.
Qed.

Lemma pick_camera_raises_iff_no_camera_witness :
  pick_camera (@nil Z) 7 (initial_pool []) = None <-> @nil Z = [].
Proof.
  apply (pick_camera_raises_iff_no_camera (@nil Z) 7 (initial_pool [])).
  unfold aligned. simpl. constructor.
Defined.

Lemma aligned_nonempty {Camera : Type} (cameras : list Camera) p :
  aligned cameras p -> viewpoint_stack p <> [] -> cameras <> [].
Proof.
  unfold aligned. intros H Hne. destruct H as [|c i l1 l2 [_ Hc] _]; [congruence|].
  intros ->. destruct (Z.to_nat i); discriminate.
Qed.

Lemma refilled_nonempty {Camera : Type} (cameras : list Camera) p :
  viewpoint_stack p <> [] -> refilled cameras p = p.
Proof.
  unfold refilled. destruct (viewpoint_stack p); [congruence|reflexivity].
Qed.

(** As long as the pool is not exhausted, picks move cameras out of it one
    by one. *)
Lemma picks_within_pool {Camera : Type} (cameras : list Camera) rs :
  forall p,
    aligned cameras p ->
    (List.length rs <= List.length (viewpoint_stack p))%nat ->
    exists picked p',
      picks cameras rs p = Some (picked, p') /\
      Permutation (map fst picked ++ viewpoint_stack p') (viewpoint_stack p) /\
      Permutation (map snd picked ++ viewpoint_indices p') (viewpoint_indices p) /\
      (List.length (viewpoint_stack p') + List.length rs
       = List.length (viewpoint_stack p))%nat.
Proof.
  induction rs as [|r rs IH]; intros p Hal Hlen.
  - exists [], p. simpl. repeat split; auto using Permutation_refl.
  - simpl in Hlen.
    assert (Hne : viewpoint_stack p <> []).
    { destruct (viewpoint_stack p); simpl in Hlen; [lia|discriminate]. }
    pose proof (aligned_nonempty cameras p Hal Hne) as Hcam.
    destruct (pick_camera_total cameras r p Hal Hcam) as (c & v & p1 & Hp).
    destruct (pick_camera_inv cameras r p c v p1 Hal Hp) as (n & Hc & Hv & Hs & Hi).
    rewrite (refilled_nonempty cameras p Hne) in Hc, Hv, Hs, Hi.
    assert (Hal1 : aligned cameras p1).
    { unfold aligned. rewrite Hs, Hi. now apply remove_nth_Forall2. }
    pose proof (remove_nth_length _ _ _ Hc) as Hl. rewrite <- Hs in Hl.
    destruct (IH p1 Hal1) as (picked & p' & Hpk & Hps & Hpi & Hln); [lia|].
    exists ((c, v) :: picked), p'. simpl. rewrite Hp. simpl. rewrite Hpk. simpl.
    repeat split.
    + apply Permutation_sym.
      eapply Permutation_trans; [apply (remove_nth_perm _ _ _ Hc)|].
      apply perm_skip. rewrite <- Hs. now apply Permutation_sym.
    + apply Permutation_sym.
      eapply Permutation_trans; [apply (remove_nth_perm _ _ _ Hv)|].
      apply perm_skip. rewrite <- Hi. now apply Permutation_sym.
    + lia.
Qed.

Lemma picks_refill {Camera : Type} (cameras : list Camera) rs p :
  viewpoint_stack p = [] ->
  picks cameras rs p = picks cameras rs (initial_pool cameras) \/ rs = [].
Proof.
  intros Hp. destruct rs as [|r rs]; [now right|left].
  simpl. unfold pick_camera. rewrite Hp.
  destruct cameras as [|c0 cs]; reflexivity.
Qed.

(** X3: an epoch visits every training camera exactly once.  From the
    initial pool, or from an exhausted one, as many picks as there are
    cameras succeed whatever the random numbers are; the cameras picked are
    the training cameras in some order, their indices are 0 .. n-1 in that
    order, and the pool is exhausted again. *)
Theorem epoch_visits_every_camera_once {Camera : Type}
    (cameras : list Camera) rs p :
  viewpoint_stack p = [] \/ p = initial_pool cameras ->
  List.length rs = List.length cameras ->
  exists picked p',
    picks cameras rs p = Some (picked, p') /\
    Permutation (map fst picked) cameras /\
    Permutation (map snd picked) (range 0 (Z.of_nat (List.length cameras))) /\
    viewpoint_stack p' = [].
Proof.
  intros Hp Hlen.
  assert (Hinit :
    exists picked p',
      picks cameras rs (initial_pool cameras) = Some (picked, p') /\
      Permutation (map fst picked) cameras /\
      Permutation (map snd picked) (range 0 (Z.of_nat (List.length cameras))) /\
      viewpoint_stack p' = []).
  { destruct (picks_within_pool cameras rs (initial_pool cameras)
                (initial_pool_aligned cameras))
      as (picked & p' & Hpk & Hps & Hpi & Hln); [simpl; lia|].
    simpl in Hps, Hpi, Hln.
    assert (Hs : viewpoint_stack p' = []).
    { destruct (viewpoint_stack p'); [reflexivity|simpl in Hln; lia]. }
    assert (Hi : viewpoint_indices p' = []).
    { apply Permutation_length in Hpi.
      rewrite length_app, length_map in Hpi.
      apply Permutation_length in Hps.
      rewrite length_app, length_map, Hs in Hps. simpl in Hps.
      unfold range in Hpi. rewrite length_map, length_seq in Hpi.
      destruct (viewpoint_indices p'); [reflexivity|simpl in Hpi; lia]. }
    rewrite Hs, app_nil_r in Hps. rewrite Hi, app_nil_r in Hpi.
    exists picked, p'. auto. }
  destruct Hp as [Hp| ->]; [|exact Hinit].
  destruct (picks_refill cameras rs p Hp) as [E| ->].
  - rewrite E. exact Hinit.
  - destruct cameras; [|discriminate].
    exists [], p. simpl. repeat split; auto using Permutation_refl.
Qed.

Lemma epoch_visits_every_camera_once_witness :
  exists picked p',
    picks [10; 20; 30] [7; 3; 100] (initial_pool [10; 20; 30]) = Some (picked, p') /\
    Permutation (map fst picked) [10; 20; 30] /\
    Permutation (map snd picked) (range 0 (Z.of_nat (List.length [10; 20; 30]))) /\
    viewpoint_stack p' = [].
Proof.
  apply (epoch_visits_every_camera_once [10; 20; 30] [7; 3; 100]
           (initial_pool [10; 20; 30])).
  - right. reflexivity.
  - reflexivity.
Defined.

End SamplerFacts.

(** ** Smoothed losses *)

Module EmaFacts.
Import Ema.

Lemma ema_fold_bounds lo hi losses :
  Forall (fun l => lo <= l /\ l <= hi)%Q losses ->
  forall e, (lo <= e /\ e <= hi)%Q ->
            (lo <= fold_left ema_step losses e /\ fold_left ema_step losses e <= hi)%Q.
Proof.
  induction 1 as [|l losses [Hl1 Hl2] _ IH]; intros e [He1 He2]; simpl; [auto|].
  apply IH. unfold ema_step. split; lra.
Qed.

(** X4: the smoothed loss is a convex mixture of 0 and the losses seen: it
    stays inside every interval that holds 0 and all of them. *)
Theorem ema_loss_within_bounds lo hi losses :
  (lo <= 0)%Q -> (0 <= hi)%Q ->
  Forall (fun l => lo <= l /\ l <= hi)%Q losses ->
  (lo <= ema_loss_for_log losses /\ ema_loss_for_log losses <= hi)%Q.
Proof.
  intros Hlo Hhi H. unfold ema_loss_for_log.
  apply ema_fold_bounds; auto.
Qed.

Lemma ema_loss_within_bounds_witness :
  (0 <= ema_loss_for_log [1; 2 # 3; 1 # 2] /\ ema_loss_for_log [1; 2 # 3; 1 # 2] <= 1)%Q.
Proof.
  apply (ema_loss_within_bounds 0 1 [1; 2 # 3; 1 # 2]%Q).
  - lra.
  - lra.
  - repeat constructor; simpl; lra.
Defined.





End EmaFacts.

(** ** The wavelet term of the loss *)

Module WaveletLossFacts.
Import Schedule Loss.

Lemma wavelet_loss_unfold opt iteration level_loss :
  wavelet_loss opt iteration level_loss
  = (0 + level_loss 0%nat * nth 0 (wavelet_weights opt iteration) 0
       + level_loss 1%nat * nth 1 (wavelet_weights opt iteration) 0
       + level_loss 2%nat * nth 2 (wavelet_weights opt iteration) 0)%Q.
Proof. reflexivity. Qed.

(** X6: strictly after the growth window the wavelet term vanishes, and
    without a depth term the loss is the plain
    [(1 - lambda) * L1 + lambda * (1 - ssim)]. *)
Theorem loss_after_window_is_base_loss opt depth_l1_weight iteration Ll1 ssim_value
    level_loss depth :
  densify_until_iter opt < iteration ->
  (wavelet_loss opt iteration level_loss == 0)%Q /\
  eqv (loss opt depth_l1_weight iteration Ll1 ssim_value level_loss false depth)
      (Fin ((1 - lambda_dssim opt) * Ll1 + lambda_dssim opt * (1 - ssim_value))).
Proof.
  intros Hi.
  assert (Hw : (wavelet_loss opt iteration level_loss == 0)%Q).
  { rewrite wavelet_loss_unfold, (ScheduleFacts.weights_after_end opt iteration Hi).
    simpl. ring. }
  split; [exact Hw|].
  unfold loss. rewrite andb_false_r. simpl. rewrite Hw. ring.
Qed.

Lemma loss_after_window_is_base_loss_witness :
  (wavelet_loss default_opt 20000 (fun _ => 1%Q) == 0)%Q /\
  eqv (loss default_opt (fun _ => 1 # 2) 20000 (1 # 10) (9 # 10) (fun _ => 1%Q) false [])
      (Fin ((1 - lambda_dssim default_opt) * (1 # 10)
            + lambda_dssim default_opt * (1 - (9 # 10)))).
Proof.
  apply (loss_after_window_is_base_loss default_opt (fun _ => 1 # 2) 20000
           (1 # 10) (9 # 10) (fun _ => 1%Q) []).
  simpl. lia.
Defined.

(** X7: strictly inside the growth window the wavelet term is
    [progress * (50 * level0 + 20 * level1) + 15 * level2]; with
    non-negative level losses it is at least the baseline [15 * level2] and
    does not decrease from one iteration of the window to a later one. *)
Theorem wavelet_loss_inside_window opt i j level_loss :
  densify_from_iter opt < i -> i <= j -> j < densify_until_iter opt ->
  (0 <= level_loss 0%nat)%Q -> (0 <= level_loss 1%nat)%Q ->
  (wavelet_loss opt i level_loss
   == progress opt i * (50 * level_loss 0%nat + 20 * level_loss 1%nat)
      + 15 * level_loss 2%nat)%Q /\
  (15 * level_loss 2%nat <= wavelet_loss opt i level_loss)%Q /\
  (wavelet_loss opt i level_loss <= wavelet_loss opt j level_loss)%Q.
Proof.
  intros Hi Hij Hj H0 H1.
  assert (Hform : forall k, densify_from_iter opt < k < densify_until_iter opt ->
    (wavelet_loss opt k level_loss
     == progress opt k * (50 * level_loss 0%nat + 20 * level_loss 1%nat)
        + 15 * level_loss 2%nat)%Q).
  { intros k [Hk1 Hk2]. rewrite wavelet_loss_unfold. unfold wavelet_weights.
    destruct (Z.ltb_spec (densify_from_iter opt) k); [|lia].
    destruct (Z.ltb_spec k (densify_until_iter opt)); [|lia].
    simpl. ring. }
  assert (Hpos : (0 <= progress opt i)%Q).
  { rewrite <- (ScheduleFacts.progress_at_start opt).
    apply Qlt_le_weak. apply ScheduleFacts.progress_lt; lia. }
  assert (Hmon : (progress opt i <= progress opt j)%Q).
  { destruct (Z.eq_dec i j) as [->|Hne]; [apply Qle_refl|].
    apply Qlt_le_weak. apply ScheduleFacts.progress_lt; lia. }
  rewrite (Hform i) by lia. rewrite (Hform j) by lia.
  repeat split; try reflexivity; nra.
Qed.

Lemma wavelet_loss_inside_window_witness :
  (wavelet_loss default_opt 600 (fun _ => 1%Q)
   == progress default_opt 600 * (50 * 1 + 20 * 1) + 15 * 1)%Q /\
  (15 * 1 <= wavelet_loss default_opt 600 (fun _ => 1%Q))%Q /\
  (wavelet_loss default_opt 600 (fun _ => 1%Q)
   <= wavelet_loss default_opt 700 (fun _ => 1%Q))%Q.
Proof.
  apply (wavelet_loss_inside_window default_opt 600 700 (fun _ => 1%Q)).
  - simpl. lia.
  - lia.
  - simpl. lia.
  - lra.
  - lra.
Defined.

End WaveletLossFacts.

(** ** The normalized discrepancy map and its cutoff *)

Module NormalizationFacts.
Import Localizer.

Lemma Qmaxb_ge a b : (a <= Qmaxb a b /\ b <= Qmaxb a b)%Q.
Proof.
  unfold Qmaxb. destruct (Qle_bool a b) eqn:E.
  - apply Qle_bool_iff in E. split; [exact E|apply Qle_refl].
  - split; [apply Qle_refl|].
    apply Qlt_le_weak, Qnot_le_lt. intros H. apply Qle_bool_iff in H. congruence.
Qed.

Lemma Qminb_le a b : (Qminb a b <= a /\ Qminb a b <= b)%Q.
Proof.
  unfold Qminb. destruct (Qle_bool a b) eqn:E.
  - apply Qle_bool_iff in E. split; [apply Qle_refl|exact E].
  - split; [|apply Qle_refl].
    apply Qlt_le_weak, Qnot_le_lt. intros H. apply Qle_bool_iff in H. congruence.
Qed.

Lemma fold_max_spec r : forall x,
  In (fold_left Qmaxb r x) (x :: r) /\
  Forall (fun y => y <= fold_left Qmaxb r x)%Q (x :: r).
Proof.
  induction r as [|a r IH]; intros x; simpl.
  - split; [auto|]. constructor; [apply Qle_refl|constructor].
  - destruct (IH (Qmaxb x a)) as [Hin Hall]. split.
    + destruct Hin as [Hin|Hin]; [|auto].
      rewrite <- Hin. unfold Qmaxb. destruct (Qle_bool x a); auto.
    + inversion Hall as [|m l Hm Hr]; subst.
      destruct (Qmaxb_ge x a) as [Hx Ha].
      constructor; [eapply Qle_trans; eauto|].
      constructor; [eapply Qle_trans; eauto|exact Hr].
Qed.

Lemma fold_min_spec r : forall x,
  In (fold_left Qminb r x) (x :: r) /\
  Forall (fun y => fold_left Qminb r x <= y)%Q (x :: r).
Proof.
  induction r as [|a r IH]; intros x; simpl.
  - split; [auto|]. constructor; [apply Qle_refl|constructor].
  - destruct (IH (Qminb x a)) as [Hin Hall]. split.
    + destruct Hin as [Hin|Hin]; [|auto].
      rewrite <- Hin. unfold Qminb. destruct (Qle_bool x a); auto.
    + inversion Hall as [|m l Hm Hr]; subst.
      destruct (Qminb_le x a) as [Hx Ha].
      constructor; [eapply Qle_trans; eauto|].
      constructor; [eapply Qle_trans; eauto|exact Hr].
Qed.

Lemma div_finite a b : ~ (b == 0)%Q -> TVal.div a b = Fin (a / b).
Proof.
  intros Hb. unfold TVal.div.
  destruct (Qeq_bool b 0) eqn:E; [|reflexivity].
  apply Qeq_bool_iff in E. contradiction.
Qed.

(** The extremes of a map with two different entries, and the finite form
    of its normalisation. *)
Lemma normalized_nonuniform d x y :
  In x d -> In y d -> (x < y)%Q ->
  exists d_max d_min,
    tensor_max d = Some d_max /\ tensor_min d = Some d_min /\
    In d_max d /\ In d_min d /\ (d_min < d_max)%Q /\
    Forall (fun v => d_min <= v /\ v <= d_max)%Q d /\
    normalized_tensor d
    = Some (map (fun v => Fin ((v - d_min) / (d_max - d_min))) d).
Proof.
  intros Hx Hy Hxy. destruct d as [|a r]; [contradiction|].
  destruct (fold_max_spec r a) as [HinM HallM].
  destruct (fold_min_spec r a) as [Hinm Hallm].
  set (mx := fold_left Qmaxb r a) in *. set (mn := fold_left Qminb r a) in *.
  rewrite Forall_forall in HallM, Hallm.
  assert (Hlt : (mn < mx)%Q).
  { eapply Qle_lt_trans; [apply (Hallm x Hx)|].
    eapply Qlt_le_trans; [exact Hxy|apply (HallM y Hy)]. }
  exists mx, mn. repeat split; trivial.
  - apply Forall_forall. intros v Hv. split; [apply Hallm|apply HallM]; exact Hv.
  - unfold normalized_tensor. simpl tensor_max. simpl tensor_min. fold mx. fold mn.
    cbv iota beta. f_equal. apply map_ext. intros v. apply div_finite. lra.
Qed.

Lemma unit_quotient v mn mx :
  (mn < mx)%Q -> (mn <= v)%Q -> (v <= mx)%Q ->
  (0 <= (v - mn) / (mx - mn) /\ (v - mn) / (mx - mn) <= 1)%Q.
Proof.
  intros Hlt H1 H2. split.
  - apply Qle_shift_div_l; lra.
  - apply Qle_shift_div_r; lra.
Qed.

(** X8: on a discrepancy map with two different entries the normalisation
    is finite at every pixel and maps the map onto [0, 1]: every entry
    lands between 0 and 1, a largest pixel on 1 and a smallest on 0. *)
Theorem normalized_map_fills_unit_interval d x y :
  In x d -> In y d -> (x < y)%Q ->
  exists normalized d_max d_min,
    normalized_tensor d = Some (map Fin normalized) /\
    List.length normalized = List.length d /\
    Forall (fun q => 0 <= q /\ q <= 1)%Q normalized /\
    tensor_max d = Some d_max /\ tensor_min d = Some d_min /\
    (forall k, nth_error d k = Some d_max ->
               exists q, nth_error normalized k = Some q /\ (q == 1)%Q) /\
    (forall k, nth_error d k = Some d_min ->
               exists q, nth_error normalized k = Some q /\ (q == 0)%Q).
Proof.
  intros Hx Hy Hxy.
  destruct (normalized_nonuniform d x y Hx Hy Hxy)
    as (mx & mn & HM & Hm & _ & _ & Hlt & Hall & Hn).
  exists (map (fun v => (v - mn) / (mx - mn))%Q d), mx, mn.
  split; [rewrite Hn, map_map; reflexivity|].
  split; [apply length_map|].
  split; [|split; [exact HM|split; [exact Hm|split]]].
  - apply Forall_forall. intros q Hq. apply in_map_iff in Hq.
    destruct Hq as [v [<- Hv]]. rewrite Forall_forall in Hall.
    destruct (Hall v Hv). now apply unit_quotient.
  - intros k Hk. eexists. split; [apply map_nth_error; exact Hk|].
    field. lra.
  - intros k Hk. eexists. split; [apply map_nth_error; exact Hk|].
    field. lra.
Qed.

Lemma normalized_map_fills_unit_interval_witness :
  exists normalized d_max d_min,
    normalized_tensor [0; 10; 20; 30]%Q = Some (map Fin normalized) /\
    List.length normalized = List.length [0; 10; 20; 30]%Q /\
    Forall (fun q => 0 <= q /\ q <= 1)%Q normalized /\
    tensor_max [0; 10; 20; 30]%Q = Some d_max /\
    tensor_min [0; 10; 20; 30]%Q = Some d_min /\
    (forall k, nth_error [0; 10; 20; 30]%Q k = Some d_max ->
               exists q, nth_error normalized k = Some q /\ (q == 1)%Q) /\
    (forall k, nth_error [0; 10; 20; 30]%Q k = Some d_min ->
               exists q, nth_error normalized k = Some q /\ (q == 0)%Q).
Proof.
  apply (normalized_map_fills_unit_interval [0; 10; 20; 30]%Q 0%Q 10%Q).
  - simpl. auto.
  - simpl. auto.
  - reflexivity.
Defined.

End NormalizationFacts.

Module CutoffFacts.
Import Localizer.

Lemma insert_In v x l : In x (TVal.insert v l) <-> x = v \/ In x l.
Proof.
  induction l as [|a l IH]; simpl; [intuition|].
  destruct (TVal.leb v a); simpl; [intuition|]. rewrite IH. intuition.
Qed.

Lemma sort_In x l : In x (TVal.sort l) <-> In x l.
Proof.
  induction l as [|a l IH]; simpl; [tauto|].
  rewrite insert_In, IH. intuition.
Qed.

Lemma insert_length v l : List.length (TVal.insert v l) = S (List.length l).
Proof.
  induction l as [|a l IH]; simpl; trivial.
  destruct (TVal.leb v a); simpl; congruence.
Qed.

Lemma sort_length l : List.length (TVal.sort l) = List.length l.
Proof.
  induction l as [|a l IH]; simpl; trivial. rewrite insert_length. congruence.
Qed.

Lemma no_nan_in_finite qs : existsb TVal.is_nan (map Fin qs) = false.
Proof. induction qs; simpl; trivial. Qed.

(** An entry of the sorted finite input, at an index inside it. *)
Lemma sorted_entry qs (P : Q -> Prop) k :
  Forall P qs -> (k < List.length qs)%nat ->
  exists q, nth k (TVal.sort (map Fin qs)) NaN = Fin q /\ P q.
Proof.
  intros HP Hk.
  assert (Hin : In (nth k (TVal.sort (map Fin qs)) NaN) (TVal.sort (map Fin qs))).
  { apply nth_In. now rewrite sort_length, length_map. }
  apply sort_In, in_map_iff in Hin. destruct Hin as [q [Hq Hin]].
  exists q. split; [now symmetry|]. rewrite Forall_forall in HP. auto.
Qed.

Lemma lerp_finite a b w :
  TVal.lerp (Fin a) (Fin b) w = Fin (a + w * (b + - a)).
Proof. reflexivity. Qed.

(** The quantile of finite values of [0, 1] is a finite value of [0, 1]. *)
Lemma quantile_unit qs p :
  qs <> [] -> Forall (fun q => 0 <= q /\ q <= 1)%Q qs ->
  (0 <= p)%Q -> (p <= 1)%Q ->
  exists c, TVal.quantile (map Fin qs) p = Some (Fin c) /\ (0 <= c /\ c <= 1)%Q.
Proof.
  intros Hne Hall Hp0 Hp1.
  destruct qs as [|q0 qs']; [congruence|]. set (qs := q0 :: qs') in *.
  unfold TVal.quantile. change (map Fin qs) with (Fin q0 :: map Fin qs') at 1.
  cbv iota. rewrite no_nan_in_finite. cbv iota zeta.
  rewrite length_map.
  set (n1 := Z.of_nat (List.length qs) - 1).
  assert (Hn1 : 0 <= n1) by (unfold n1, qs; simpl List.length; lia).
  set (rank := (p * inject_Z n1)%Q).
  assert (Hn1q : (0 <= inject_Z n1)%Q).
  { replace 0%Q with (inject_Z 0) by reflexivity. now rewrite <- Zle_Qle. }
  assert (Hr0 : (0 <= rank)%Q) by (unfold rank; nra).
  assert (Hr1 : (rank <= inject_Z n1)%Q) by (unfold rank; nra).
  assert (Hb0 : 0 <= Qfloor rank).
  { change 0 with (Qfloor 0). now apply Qfloor_resp_le. }
  assert (Hb1 : Qfloor rank <= n1).
  { rewrite <- (Qfloor_Z n1). now apply Qfloor_resp_le. }
  assert (Ha1 : Qceiling rank <= n1).
  { rewrite <- (Qceiling_Z n1). now apply Qceiling_resp_le. }
  assert (Ha0 : 0 <= Qceiling rank).
  { change 0 with (Qceiling 0). now apply Qceiling_resp_le. }
  pose proof (Qfloor_le rank) as Hfl.
  pose proof (Qlt_floor rank) as Hlf.
  rewrite inject_Z_plus in Hlf. change (inject_Z 1) with 1%Q in Hlf.
  destruct (sorted_entry qs _ (Z.to_nat (Qfloor rank)) Hall) as [a [Ea [Ha_lo Ha_hi]]];
    [unfold n1 in Hb1; lia|].
  destruct (sorted_entry qs _ (Z.to_nat (Qceiling rank)) Hall) as [b [Eb [Hb_lo Hb_hi]]];
    [unfold n1 in Ha1; lia|].
  rewrite Ea, Eb, lerp_finite.
  eexists. split; [reflexivity|].
  set (w := (rank - inject_Z (Qfloor rank))%Q).
  assert (Hw0 : (0 <= w)%Q) by (unfold w; lra).
  assert (Hw1 : (w <= 1)%Q) by (unfold w; lra).
  split; nra.
Qed.

Lemma percentile_in_unit opt iteration :
  (0 <= percentile opt iteration /\ percentile opt iteration <= 1)%Q.
Proof.
  unfold percentile.
  destruct ((7001 <=? iteration) && (iteration <=? densify_until_iter opt));
    split; discriminate.
Qed.

(** X9: on a discrepancy map with two different entries the cutoff is a
    finite number of [0, 1] at every iteration; the flag map, obtained by
    comparing the map itself with it, has one flag per pixel, flags every
    pixel whose discrepancy is above 1 and no pixel whose discrepancy is 0
    or less. *)
Theorem cutoff_in_unit_interval opt iteration d x y :
  In x d -> In y d -> (x < y)%Q ->
  exists c m,
    cutoff opt iteration d = Some (Fin c) /\ (0 <= c /\ c <= 1)%Q /\
    discrepancy_mask opt iteration d = Some m /\
    List.length m = List.length d /\
    forall k v, nth_error d k = Some v ->
      ((1 < v)%Q -> nth_error m k = Some true) /\
      ((v <= 0)%Q -> nth_error m k = Some false).
Proof.
  intros Hx Hy Hxy.
  destruct (NormalizationFacts.normalized_nonuniform d x y Hx Hy Hxy)
    as (mx & mn & _ & _ & _ & _ & Hlt & Hall & Hn).
  destruct (percentile_in_unit opt iteration) as [Hp0 Hp1].
  destruct (quantile_unit (map (fun v => (v - mn) / (mx - mn))%Q d)
              (percentile opt iteration)) as [c [Hc Hcb]]; trivial.
  { destruct d; [contradiction|discriminate]. }
  { apply Forall_forall. intros q Hq. apply in_map_iff in Hq.
    destruct Hq as [v [<- Hv]]. rewrite Forall_forall in Hall.
    destruct (Hall v Hv). now apply NormalizationFacts.unit_quotient. }
  assert (Hcut : cutoff opt iteration d = Some (Fin c)).
  { unfold cutoff. rewrite Hn, <- Hc, map_map. reflexivity. }
  exists c, (map (fun v => TVal.gt (Fin v) (Fin c)) d).
  split; [exact Hcut|]. split; [exact Hcb|].
  split; [unfold discrepancy_mask; rewrite Hcut; reflexivity|].
  split; [apply length_map|].
  intros k v Hk. rewrite (map_nth_error _ _ _ Hk). simpl. unfold TVal.Qltb.
  split; intros Hv; do 2 f_equal.
  - apply negb_true_iff. destruct (Qle_bool v c) eqn:E; [|reflexivity].
    apply Qle_bool_iff in E. lra.
  - apply negb_false_iff. apply Qle_bool_iff. lra.
Qed.

Lemma cutoff_in_unit_interval_witness :
  exists c m,
    cutoff default_opt 1000 [0; 10; 20; 30]%Q = Some (Fin c) /\ (0 <= c /\ c <= 1)%Q /\
    discrepancy_mask default_opt 1000 [0; 10; 20; 30]%Q = Some m /\
    List.length m = List.length [0; 10; 20; 30]%Q /\
    forall k v, nth_error [0; 10; 20; 30]%Q k = Some v ->
      ((1 < v)%Q -> nth_error m k = Some true) /\
      ((v <= 0)%Q -> nth_error m k = Some false).
Proof.
  apply (cutoff_in_unit_interval default_opt 1000 [0; 10; 20; 30]%Q 0%Q 10%Q).
  - simpl. auto.
  - simpl. auto.
  - reflexivity.
Defined.

End CutoffFacts.

Module LocalizerErrors.
Import Localizer.

(** X10: the localizer raises exactly when the discrepancy map is empty or
    does not have one pixel per contributor list; otherwise it returns a
    flagged set. *)
Theorem localizer_raises_iff opt iteration d rows :
  localizer opt iteration d rows = None <->
  d = [] \/ List.length d <> List.length rows.
Proof.
  split.
  - intros H. destruct d as [|x d]; [now left|right].
    intros Hlen.
    destruct (LocalizerTotal.localizer_total opt iteration (x :: d) rows) as [r Hr];
      [discriminate|exact Hlen|congruence].
  - intros [->|Hlen]; [reflexivity|].
    destruct d as [|x d]; [reflexivity|].
    destruct (LocalizerTotal.discrepancy_mask_total opt iteration (x :: d))
      as [m [Hm Hl]]; [discriminate|].
    unfold localizer. rewrite Hm.
    unfold gaussians_to_densify, mask_select, first3. rewrite length_map.
    destruct (Nat.eqb_spec (List.length m) (List.length rows)); [congruence|reflexivity].
Qed.

Lemma flagged_rows_incl {A : Type} (m1 m2 : list bool) (rows : list A) :
  Forall2 (fun a b => a = true -> b = true) m1 m2 ->
  incl (flagged_rows m1 rows) (flagged_rows m2 rows).
Proof.
  intros H. revert rows.
  induction H as [|a b m1 m2 Hab H IH]; intros [|r rows]; simpl;
    try (intros z Hz; exact Hz).
  destruct a.
  - rewrite (Hab eq_refl). intros z [->|Hz]; [now left|right; now apply IH].
  - destruct b; [intros z Hz; right; now apply IH|apply IH].
Qed.

(** X11: flagging more pixels never loses a primitive: when every pixel
    flagged by one map is flagged by another, the flagged set of the first
    is contained in that of the second. *)
Theorem gaussians_to_densify_monotone rows m1 m2 r1 r2 :
  Forall2 (fun a b => a = true -> b = true) m1 m2 ->
  gaussians_to_densify rows m1 = Some r1 ->
  gaussians_to_densify rows m2 = Some r2 ->
  incl r1 r2.
Proof.
  intros Hm H1 H2. unfold gaussians_to_densify, mask_select in *.
  destruct (List.length m1 =? List.length (first3 rows))%nat; [|discriminate].
  destruct (List.length m2 =? List.length (first3 rows))%nat; [|discriminate].
  injection H1 as <-. injection H2 as <-.
  intros i Hi. rewrite LocalizerFacts.unique_In in Hi |- *.
  apply filter_In in Hi. destruct Hi as [Hi Hpos]. apply filter_In. split; trivial.
  apply in_concat in Hi. destruct Hi as [row [Hrow Hi]].
  apply in_concat. exists row. split; trivial.
  now apply (flagged_rows_incl m1 m2).
Qed.

Lemma gaussians_to_densify_monotone_witness :
  incl [0; 4] [0; 2; 4].
Proof.
  apply (gaussians_to_densify_monotone [[4; 0; -1]; [2; 2; 2]; [-1; -1; -1]]
           [true; false; false] [true; true; false] [0; 4] [0; 2; 4]).
  - repeat constructor; discriminate.
  - reflexivity.
  - reflexivity.
Defined.

End LocalizerErrors.

(** ** Schedules and persisted state of one iteration *)

Lemma map_seq_from {A : Type} m : forall (f : nat -> A) n,
  map f (seq n m) = map (fun k => f (n + k)%nat) (seq 0 m).
Proof.
  induction m as [|m IH]; intros f n; simpl; [reflexivity|].
  f_equal; [f_equal; lia|].
  rewrite (IH f (S n)), (IH (fun k => f (n + k)%nat) 1%nat).
  apply map_ext. intros k. f_equal. lia.
Qed.

Lemma range_split a b c :
  a <= b -> b <= c -> range a c = range a b ++ range b c.
Proof.
  intros Hab Hbc. unfold range.
  replace (Z.to_nat (c - a)) with (Z.to_nat (b - a) + Z.to_nat (c - b))%nat by lia.
  rewrite seq_app, map_app. f_equal. simpl.
  rewrite map_seq_from. apply map_ext. intros k. lia.
Qed.

Lemma range_one a : range a (a + 1) = [a].
Proof.
  unfold range. replace (a + 1 - a) with 1 by lia. simpl. f_equal. lia.
Qed.


Lemma logged_events_cases {Params : Type} (e : event Params) iteration p0 devs c
    saving ckpt (b : bool) :
  In e ((if mem iteration saving then [Save iteration p0] else [])
        ++ devs
        ++ (if b then [OptimizerStep] else [])
        ++ (if mem iteration ckpt then [Checkpoint c iteration] else [])) <->
  (mem iteration saving = true /\ e = Save iteration p0) \/ In e devs
  \/ (b = true /\ e = OptimizerStep)
  \/ (mem iteration ckpt = true /\ e = Checkpoint c iteration).
Proof.
  rewrite !in_app_iff.
  destruct (mem iteration saving), b, (mem iteration ckpt); simpl;
    intuition (try discriminate; auto).
Qed.

Section IterationFacts.

Context {Params Grad : Type}.
Variable accumulate : option Grad -> Grad -> Grad.
Variable densify_and_prune :
  GaussianModel Params -> option Z -> list Z -> option (list Z) -> GaussianModel Params.
Variable reset_opacity : Params -> Params.
Variable exposure_step : Params -> option Grad -> Params.
Variable dense_step : Params -> option Grad -> Params.
Variable sparse_step : list bool -> nat -> Params -> option Grad -> Params.
Variable SPARSE_ADAM_AVAILABLE : bool.

Local Abbreviation densify' := (densification densify_and_prune reset_opacity).
Local Abbreviation optimize' :=
  (optimizer_stage exposure_step dense_step sparse_step SPARSE_ADAM_AVAILABLE).
Local Abbreviation iterate' :=
  (train_iteration accumulate densify_and_prune reset_opacity exposure_step
     dense_step sparse_step SPARSE_ADAM_AVAILABLE).

Lemma in_control_events_densify_iff opt white iteration flagged sz fl :
  In (@DensifyAndPrune Params sz fl) (control_events opt white iteration flagged) <->
  densify_due opt iteration = true /\ fl = flagged /\
  sz = (if opacity_reset_interval opt <? iteration then Some 20 else None).
Proof.
  unfold control_events. rewrite in_app_iff.
  destruct (densify_due opt iteration), (reset_due opt white iteration); simpl;
    split; intros H;
    repeat match goal with
           | H : _ \/ _ |- _ => destruct H
           | H : _ /\ _ |- _ => destruct H
           | H : False |- _ => contradiction
           | H : DensifyAndPrune _ _ = DensifyAndPrune _ _ |- _ =>
               injection H as <- <-
           end; try discriminate; subst; auto.
Qed.

Lemma control_events_persist_nothing opt white iteration flagged (e : event Params) :
  In e (control_events opt white iteration flagged) ->
  (forall i p, e <> Save i p) /\ (forall c i, e <> Checkpoint c i).
Proof.
  unfold control_events. rewrite in_app_iff.
  destruct (densify_due opt iteration), (reset_due opt white iteration); simpl;
    intros H;
    repeat match goal with
           | H : _ \/ _ |- _ => destruct H
           | H : False |- _ => contradiction
           end; subst; split; intros; discriminate.
Qed.

Lemma densify_due_spec opt iteration :
  densify_due opt iteration = true <->
  densify_from_iter opt < iteration /\ iteration mod densification_interval opt = 0.
Proof.
  unfold densify_due. rewrite andb_true_iff, Z.ltb_lt, Z.eqb_eq. tauto.
Qed.

(** X12: on agreeing shapes and non-zero intervals, an iteration calls
    [densify_and_prune] exactly when it lies strictly inside the growth
    window on a multiple of the densification interval; the call then gets
    the flagged set of the iteration and the size threshold 20 once the
    iteration is past [opacity_reset_interval], no size threshold before. *)
Theorem densify_and_prune_schedule opt white saving ckpt iteration inp s :
  well_shaped inp (gaussians s) ->
  densification_interval opt <> 0 -> opacity_reset_interval opt <> 0 ->
  exists s' evs flagged,
    iterate' opt white saving ckpt iteration inp s = Some (s', evs) /\
    gaussians_to_densify opt iteration inp = Some flagged /\
    forall sz fl,
      In (DensifyAndPrune sz fl) evs <->
      (densify_from_iter opt < iteration < densify_until_iter opt /\
       iteration mod densification_interval opt = 0 /\
       fl = flagged /\
       sz = (if opacity_reset_interval opt <? iteration then Some 20 else None)).
Proof.
  intros Hw Hd Hr.
  destruct (train_iteration_total accumulate densify_and_prune reset_opacity
              exposure_step dense_step sparse_step SPARSE_ADAM_AVAILABLE
              opt white saving ckpt iteration inp s Hw Hd Hr) as [s' [evs H]].
  pose proof H as Hinv. apply train_iteration_inv in Hinv.
  destruct Hinv as (flagged & g1 & devs & Hfl & Hdens & _ & Hevs).
  exists s', evs, flagged. split; [exact H|]. split; [exact Hfl|].
  apply densification_inv in Hdens. destruct Hdens as [-> _].
  intros sz fl. rewrite Hevs, logged_events_cases.
  destruct (Z.ltb_spec iteration (densify_until_iter opt)) as [Hlt|Hge].
  - rewrite in_control_events_densify_iff, densify_due_spec.
    split.
    + intros [[_ E]|[E|[[_ E]|[_ E]]]]; try discriminate. tauto.
    + intros E. right. left. tauto.
  - simpl. split.
    + intros [[_ E]|[E|[[_ E]|[_ E]]]]; try discriminate. contradiction.
    + intros E. lia.
Qed.

(** X13: on agreeing shapes and non-zero intervals, an iteration steps the
    optimizer exactly when it is not the last one; the gradients are then
    cleared, and the step leaves the running statistics as the
    densification block left them. *)
Theorem optimizer_step_schedule opt white saving ckpt iteration inp s :
  well_shaped inp (gaussians s) ->
  densification_interval opt <> 0 -> opacity_reset_interval opt <> 0 ->
  exists s' evs flagged g1 devs,
    iterate' opt white saving ckpt iteration inp s = Some (s', evs) /\
    (In OptimizerStep evs <-> iteration < iterations opt) /\
    (iteration < iterations opt -> grad s' = None) /\
    gaussians_to_densify opt iteration inp = Some flagged /\
    densify' opt white iteration inp flagged (gaussians s) = Some (g1, devs) /\
    max_radii2D (gaussians s') = max_radii2D g1 /\
    xyz_gradient_accum (gaussians s') = xyz_gradient_accum g1 /\
    denom (gaussians s') = denom g1.
Proof.
  intros Hw Hd Hr.
  destruct (train_iteration_total accumulate densify_and_prune reset_opacity
              exposure_step dense_step sparse_step SPARSE_ADAM_AVAILABLE
              opt white saving ckpt iteration inp s Hw Hd Hr) as [s' [evs H]].
  pose proof H as Hinv. apply train_iteration_inv in Hinv.
  destruct Hinv as (flagged & g1 & devs & Hfl & Hdens & Hopt & Hevs).
  exists s', evs, flagged, g1, devs. split; [exact H|].
  pose proof (densification_inv _ _ _ _ _ _ _ _ _ _ Hdens) as [Hdevs _].
  split; [|split; [|split; [exact Hfl|split; [exact Hdens|]]]].
  - rewrite Hevs, logged_events_cases. split.
    + intros [[_ E]|[E|[[E _]|[_ E]]]]; try discriminate.
      * exfalso. rewrite Hdevs in E.
        destruct (iteration <? densify_until_iter opt); [|contradiction].
        now apply in_control_events_step in E.
      * now apply Z.ltb_lt.
    + intros E. right. right. left. split; [now apply Z.ltb_lt|reflexivity].
  - intros Hlt.
    pose proof (optimizer_stage_clears exposure_step dense_step sparse_step
                  SPARSE_ADAM_AVAILABLE opt iteration inp
                  (mkState g1 (backward accumulate iteration inp (grad s))) Hlt) as Hc.
    rewrite Hopt in Hc. exact Hc.
  - unfold optimizer_stage in Hopt.
    destruct (iteration <? iterations opt); injection Hopt as <-; simpl; auto.
Qed.

(** X14: what an iteration persists.  A save event is logged exactly when
    the iteration is in the save list, and holds the parameters the
    iteration started from, before its densification and optimizer step; a
    checkpoint event is logged exactly when the iteration is in the
    checkpoint list, and holds the population the iteration ends with. *)
Theorem persisted_snapshots opt white saving ckpt iteration inp s s' evs :
  iterate' opt white saving ckpt iteration inp s = Some (s', evs) ->
  (forall i p, In (Save i p) evs <->
               In iteration saving /\ i = iteration /\ p = params (gaussians s)) /\
  (forall c i, In (Checkpoint c i) evs <->
               In iteration ckpt /\ i = iteration /\ c = gaussians s').
Proof.
  intros H. apply train_iteration_inv in H.
  destruct H as (flagged & g1 & devs & _ & Hdens & _ & ->).
  apply densification_inv in Hdens. destruct Hdens as [Hdevs _].
  assert (Hnone : forall e, In e devs ->
            (forall i p, e <> Save i p) /\ (forall c i, e <> Checkpoint c i)).
  { intros e He. rewrite Hdevs in He.
    destruct (iteration <? densify_until_iter opt); [|contradiction].
    now apply control_events_persist_nothing in He. }
  split.
  - intros i p. rewrite logged_events_cases, <- mem_In. split.
    + intros [[Hm E]|[E|[[_ E]|[_ E]]]]; try discriminate.
      * injection E as -> ->. auto.
      * exfalso. destruct (Hnone _ E) as [Hs _]. now apply (Hs i p).
    + intros (Hm & -> & ->). left. auto.
  - intros c i. rewrite logged_events_cases, <- mem_In. split.
    + intros [[_ E]|[E|[[_ E]|[Hm E]]]]; try discriminate.
      * exfalso. destruct (Hnone _ E) as [_ Hc]. now apply (Hc c i).
      * injection E as -> ->. auto.
    + intros (Hm & -> & ->). right. right. right. auto.
Qed.

(** X15: a zero interval is fatal before the window end.  With
    [opacity_reset_interval = 0] every iteration before
    [densify_until_iter] raises, and so does, with
    [densification_interval = 0], every iteration strictly inside the
    growth window. *)
Theorem zero_interval_raises opt white saving ckpt iteration inp s :
  iteration < densify_until_iter opt ->
  opacity_reset_interval opt = 0
  \/ (densification_interval opt = 0 /\ densify_from_iter opt < iteration) ->
  iterate' opt white saving ckpt iteration inp s = None.
Proof.
  intros Hlt Hz. unfold train_iteration.
  destruct (gaussians_to_densify opt iteration inp) as [flagged|]; [|reflexivity].
  simpl.
  assert (Hd : densify' opt white iteration inp flagged (gaussians s) = None).
  { unfold densification.
    destruct (Z.ltb_spec iteration (densify_until_iter opt)); [|lia].
    destruct (statistics_update inp (gaussians s)) as [g1|]; [|reflexivity].
    simpl. unfold population_control, pymod.
    destruct Hz as [Hr|[Hd Hfrom]].
    - rewrite Hr. simpl.
      destruct (densify_from_iter opt <? iteration); simpl.
      + destruct (densification_interval opt =? 0); simpl; [reflexivity|].
        destruct (iteration mod densification_interval opt =? 0); reflexivity.
      + reflexivity.
    - destruct (Z.ltb_spec (densify_from_iter opt) iteration); [|lia].
      rewrite Hd. reflexivity. }
  rewrite Hd. reflexivity.
Qed.

End IterationFacts.

(** ** The loop as a whole *)

Section RunFacts.

Context {Params Grad : Type}.
Variable accumulate : option Grad -> Grad -> Grad.
Variable densify_and_prune :
  GaussianModel Params -> option Z -> list Z -> option (list Z) -> GaussianModel Params.
Variable reset_opacity : Params -> Params.
Variable exposure_step : Params -> option Grad -> Params.
Variable dense_step : Params -> option Grad -> Params.
Variable sparse_step : list bool -> nat -> Params -> option Grad -> Params.
Variable SPARSE_ADAM_AVAILABLE : bool.
Variable opt : OptimizationParams.
Variable white : bool.
Variable ckpt : list Z.
Variable render : Z -> GaussianModel Params -> IterInput Grad.

Local Abbreviation step_of saving :=
  (train_iteration accumulate densify_and_prune reset_opacity exposure_step
     dense_step sparse_step SPARSE_ADAM_AVAILABLE opt white saving ckpt).
Local Abbreviation run_of saving :=
  (run accumulate densify_and_prune reset_opacity exposure_step dense_step
     sparse_step SPARSE_ADAM_AVAILABLE opt white saving ckpt render).
Local Abbreviation train_of saving :=
  (training accumulate densify_and_prune reset_opacity exposure_step dense_step
     sparse_step SPARSE_ADAM_AVAILABLE opt white saving ckpt render).

Lemma run_app saving l1 l2 : forall s log,
  run_of saving (l1 ++ l2) s log
  = match run_of saving l1 s log with
    | Completed s' log' => run_of saving l2 s' log'
    | o => o
    end.
Proof.
  induction l1 as [|i l1 IH]; intros s log; simpl; [reflexivity|].
  destruct (step_of saving i (render i (gaussians s)) s) as [[s' evs]|];
    [apply IH|reflexivity].
Qed.

(** X18: [main] always saves the result.  When training called from
    [main] completes at least one iteration, the last entry of its log is
    the last iteration and holds a save event; if the growth window is over
    by then, the parameters saved are those of the final population. *)
Theorem main_saves_final_population save_iterations first_iter init final log :
  first_iter < iterations opt ->
  main accumulate densify_and_prune reset_opacity exposure_step dense_step
    sparse_step SPARSE_ADAM_AVAILABLE opt white save_iterations ckpt render
    first_iter init = Completed final log ->
  exists log' evs p,
    log = log' ++ [(iterations opt, evs)] /\
    In (Save (iterations opt) p) evs /\
    (densify_until_iter opt <= iterations opt -> p = params (gaussians final)).
Proof.
  intros Hlt H. unfold main, training in H.
  destruct (negb SPARSE_ADAM_AVAILABLE && String.eqb (optimizer_type opt) "sparse_adam");
    [discriminate|].
  rewrite (range_split (first_iter + 1) (iterations opt) (iterations opt + 1)) in H
    by lia.
  rewrite range_one, run_app in H.
  destruct (run_of (save_iterations ++ [iterations opt])
              (range (first_iter + 1) (iterations opt)) init [])
    as [| |s1 log1]; try discriminate.
  simpl in H.
  destruct (step_of (save_iterations ++ [iterations opt]) (iterations opt)
              (render (iterations opt) (gaussians s1)) s1)
    as [[s' evs]|] eqn:Hstep; [|discriminate].
  injection H as <- <-.
  apply train_iteration_inv in Hstep.
  destruct Hstep as (flagged & g1 & devs & _ & Hdens & Hopt & Hevs).
  rewrite optimizer_stage_last in Hopt by lia. injection Hopt as Hs'.
  apply densification_inv in Hdens. destruct Hdens as [_ Hsame].
  assert (Hmem : mem (iterations opt) (save_iterations ++ [iterations opt]) = true).
  { apply mem_In, in_or_app. right. now left. }
  rewrite Hmem in Hevs.
  exists log1, evs, (params (gaussians s1)).
  split; [reflexivity|]. split.
  - rewrite Hevs. now left.
  - intros Hu. rewrite <- Hs'. simpl. now rewrite (Hsame Hu).
Qed.


End RunFacts.

Module IterationExamples.

Lemma densify_and_prune_schedule_witness :
  exists s' evs flagged,
    Toy.train_iteration default_opt false [] [] 600 Toy.inp Toy.s0 = Some (s', evs) /\
    gaussians_to_densify default_opt 600 Toy.inp = Some flagged /\
    forall sz fl,
      In (DensifyAndPrune sz fl) evs <->
      (densify_from_iter default_opt < 600 < densify_until_iter default_opt /\
       600 mod densification_interval default_opt = 0 /\
       fl = flagged /\
       sz = (if opacity_reset_interval default_opt <? 600 then Some 20 else None)).
Proof.
  apply (densify_and_prune_schedule Toy.accumulate Toy.densify_and_prune
           Toy.reset_opacity Toy.step Toy.step Toy.sparse_step false
           default_opt false [] [] 600 Toy.inp Toy.s0).
  - unfold well_shaped. simpl. repeat split; discriminate.
  - simpl. lia.
  - simpl. lia.
Defined.

Lemma optimizer_step_schedule_witness :
  exists s' evs flagged g1 devs,
    Toy.train_iteration default_opt false [] [] 600 Toy.inp Toy.s0 = Some (s', evs) /\
    (In OptimizerStep evs <-> 600 < iterations default_opt) /\
    (600 < iterations default_opt -> grad s' = None) /\
    gaussians_to_densify default_opt 600 Toy.inp = Some flagged /\
    densification Toy.densify_and_prune Toy.reset_opacity default_opt false 600
      Toy.inp flagged (gaussians Toy.s0) = Some (g1, devs) /\
    max_radii2D (gaussians s') = max_radii2D g1 /\
    xyz_gradient_accum (gaussians s') = xyz_gradient_accum g1 /\
    denom (gaussians s') = denom g1.
Proof.
  apply (optimizer_step_schedule Toy.accumulate Toy.densify_and_prune
           Toy.reset_opacity Toy.step Toy.step Toy.sparse_step false
           default_opt false [] [] 600 Toy.inp Toy.s0).
  - unfold well_shaped. simpl. repeat split; discriminate.
  - simpl. lia.
  - simpl. lia.
Defined.

Lemma persisted_snapshots_witness :
  (forall i p, In (Save i p) (Toy.events_of Toy.second_iteration) <->
               In 2 [2] /\ i = 2 /\ p = params (gaussians Toy.s0)) /\
  (forall c i, In (Checkpoint c i) (Toy.events_of Toy.second_iteration) <->
               In 2 [2] /\ i = 2 /\ c = gaussians (Toy.state_of Toy.second_iteration)).
Proof.
  apply (persisted_snapshots Toy.accumulate Toy.densify_and_prune
           Toy.reset_opacity Toy.step Toy.step Toy.sparse_step false
           Toy.small_opt false [2] [2] 2 Toy.inp Toy.s0
           (Toy.state_of Toy.second_iteration) (Toy.events_of Toy.second_iteration)).
  vm_compute. reflexivity.
Defined.

Lemma zero_interval_raises_witness :
  Toy.train_iteration Toy.zero_reset_opt false [] [] 1 Toy.inp Toy.s0 = None.
Proof.
  apply (zero_interval_raises Toy.accumulate Toy.densify_and_prune
           Toy.reset_opacity Toy.step Toy.step Toy.sparse_step false
           Toy.zero_reset_opt false [] [] 1 Toy.inp Toy.s0).
  - simpl. lia.
  - left. reflexivity.
Defined.

Lemma main_saves_final_population_witness :
  exists log' evs p,
    Toy.log_of Toy.whole_run = log' ++ [(iterations Toy.small_opt, evs)] /\
    In (Save (iterations Toy.small_opt) p) evs /\
    (densify_until_iter Toy.small_opt <= iterations Toy.small_opt ->
     p = params (gaussians (Toy.final_of Toy.whole_run))).
Proof.
  apply (main_saves_final_population Toy.accumulate Toy.densify_and_prune
           Toy.reset_opacity Toy.step Toy.step Toy.sparse_step true
           Toy.small_opt false [1] Toy.render [] 0 Toy.s0
           (Toy.final_of Toy.whole_run) (Toy.log_of Toy.whole_run)).
  - simpl. lia.
  - vm_compute. reflexivity.
Defined.


End IterationExamples.

(** ** Evaluation report *)

Module ReportFacts.
Import Report.

Section ReportFacts.

Context {Camera : Type}.
Variable image_name : Camera -> string.
Variable l1_of : Camera -> Q.
Variable psnr_of : Camera -> Q.

Lemma sample_at_spec (train : list Camera) idxs :
  train <> [] ->
  exists r,
    sample_at train idxs = Some r /\
    List.length r = List.length idxs /\
    forall k idx, nth_error idxs k = Some idx ->
      nth_error r k
      = nth_error train (Z.to_nat (idx mod Z.of_nat (List.length train))).
Proof.
  intros Hne.
  assert (Hn : 0 < Z.of_nat (List.length train)).
  { destruct train; [congruence|simpl; lia]. }
  induction idxs as [|idx idxs IH]; simpl.
  - exists []. repeat split. intros [|k] idx; discriminate.
  - rewrite pymod_Some by lia. simpl.
    pose proof (Z.mod_pos_bound idx _ Hn) as Hb.
    destruct (nth_error train (Z.to_nat (idx mod Z.of_nat (List.length train))))
      as [c|] eqn:Ec; [|apply nth_error_None in Ec; lia].
    simpl. destruct IH as (r & Hr & Hl & Hk). rewrite Hr. simpl.
    exists (c :: r). repeat split; [simpl; congruence|].
    intros [|k] idx'; simpl.
    + intros [= <-]. now symmetry.
    + apply Hk.
Qed.

(** X20: the training views of a report.  With at least one training
    camera the report evaluates five views, the cameras at positions 5, 10,
    15, 20 and 25 modulo the number of training cameras, so all of them are
    training cameras; with one or five training cameras every one of the
    five is the first camera.  Without a training camera the sampling
    raises. *)
Theorem sampled_train_cameras_spec (train : list Camera) :
  (sampled_train_cameras train = None <-> train = []) /\
  (train <> [] ->
   exists five,
     sampled_train_cameras train = Some five /\
     List.length five = 5%nat /\
     (forall k, (k < 5)%nat ->
        nth_error five k
        = nth_error train
            (Z.to_nat ((5 * (Z.of_nat k + 1)) mod Z.of_nat (List.length train)))) /\
     Forall (fun c => In c train) five /\
     (5 mod Z.of_nat (List.length train) = 0 ->
      Forall (fun c => nth_error train 0 = Some c) five)).
Proof.
  assert (Hsome : train <> [] ->
    exists five,
      sampled_train_cameras train = Some five /\
      List.length five = 5%nat /\
      (forall k, (k < 5)%nat ->
         nth_error five k
         = nth_error train
             (Z.to_nat ((5 * (Z.of_nat k + 1)) mod Z.of_nat (List.length train))))).
  { intros Hne. unfold sampled_train_cameras.
    destruct (sample_at_spec train [5; 10; 15; 20; 25] Hne) as (r & Hr & Hl & Hk).
    exists r. split; [exact Hr|]. split; [exact Hl|].
    intros k Hlt.
    destruct k as [|[|[|[|[|k]]]]]; try lia;
      (erewrite Hk; [|simpl; reflexivity]); reflexivity. }
  split.
  - split.
    + intros H. destruct train as [|c train]; [reflexivity|].
      destruct Hsome as (five & Hf & _); [discriminate|congruence].
    + intros ->. reflexivity.
  - intros Hne. destruct (Hsome Hne) as (five & Hf & Hl & Hk).
    assert (Hn : 0 < Z.of_nat (List.length train)).
    { destruct train; [congruence|simpl; lia]. }
    assert (Hin : forall c, In c five ->
              exists k, (k < 5)%nat /\
                nth_error train
                  (Z.to_nat ((5 * (Z.of_nat k + 1)) mod Z.of_nat (List.length train)))
                = Some c).
    { intros c Hc. apply In_nth_error in Hc. destruct Hc as [k Hc].
      assert (Hlt : (k < 5)%nat).
      { rewrite <- Hl. apply nth_error_Some. congruence. }
      exists k. split; [exact Hlt|]. rewrite <- (Hk k Hlt). exact Hc. }
    exists five. repeat split; trivial.
    + apply Forall_forall. intros c Hc. destruct (Hin c Hc) as (k & _ & Hc').
      eapply nth_error_In; eauto.
    + intros Hdiv. apply Forall_forall. intros c Hc.
      destruct (Hin c Hc) as (k & _ & Hc').
      rewrite Z.mul_comm, <- Zmult_mod_idemp_r, Hdiv, Z.mul_0_r in Hc'.
      rewrite Z.mod_0_l in Hc' by lia. exact Hc'.
Qed.

Lemma Qsum_bounds (f : Camera -> Q) cameras lo hi :
  (forall c, lo <= f c /\ f c <= hi)%Q ->
  (inject_Z (Z.of_nat (List.length cameras)) * lo <= Loss.Qsum (map f cameras) /\
   Loss.Qsum (map f cameras) <= inject_Z (Z.of_nat (List.length cameras)) * hi)%Q.
Proof.
  intros Hb. induction cameras as [|c cameras IH].
  - simpl. change (inject_Z 0) with 0%Q. split; lra.
  - change (List.length (c :: cameras)) with (S (List.length cameras)).
    rewrite Nat2Z.inj_succ, <- Z.add_1_r, inject_Z_plus.
    change (inject_Z 1) with 1%Q. simpl Loss.Qsum.
    destruct (Hb c). destruct IH. split; lra.
Qed.

Lemma average_bounds (f : Camera -> Q) cameras lo hi :
  cameras <> [] -> (forall c, lo <= f c /\ f c <= hi)%Q ->
  (lo <= average f cameras /\ average f cameras <= hi)%Q.
Proof.
  intros Hne Hb. unfold average.
  assert (Hn : (0 < inject_Z (Z.of_nat (List.length cameras)))%Q).
  { replace 0%Q with (inject_Z 0) by reflexivity. rewrite <- Zlt_Qlt.
    destruct cameras; [congruence|simpl; lia]. }
  destruct (Qsum_bounds f cameras lo hi Hb) as [H1 H2]. split.
  - apply Qle_shift_div_l; [exact Hn|]. lra.
  - apply Qle_shift_div_r; [exact Hn|]. lra.
Qed.

Lemma views_images_no_print tb iteration testing name cameras : forall idx i n a b,
  ~ In (PrintLine i n a b)
      (views_images Camera image_name tb iteration testing name idx cameras).
Proof.
  induction cameras as [|v cameras IH]; intros idx i n a b; simpl; [tauto|].
  rewrite in_app_iff. intros [H|H]; [|exact (IH _ _ _ _ _ H)].
  unfold view_images in H.
  destruct (tb && (idx <? 5)%nat); [|contradiction].
  destruct (iteration =? hd 0 testing); simpl in H;
    repeat destruct H as [H|H]; try discriminate; contradiction.
Qed.

Lemma evaluate_print tb iteration testing name cameras i n a b :
  In (PrintLine i n a b)
     (evaluate image_name l1_of psnr_of tb iteration testing name cameras) ->
  cameras <> [] /\ i = iteration /\ n = name /\
  a = average l1_of cameras /\ b = average psnr_of cameras.
Proof.
  unfold evaluate. destruct cameras as [|c cameras]; [contradiction|].
  rewrite !in_app_iff. intros [H|[H|H]].
  - exfalso. exact (views_images_no_print _ _ _ _ _ _ _ _ _ _ H).
  - destruct H as [H|[]]. injection H as <- <- <- <-.
    repeat split; discriminate.
  - destruct tb; simpl in H; repeat destruct H as [H|H]; try discriminate;
      contradiction.
Qed.

(** X21: the printed lines of a report.  A line is printed only at a
    testing iteration, for the split [test] when there are test cameras or
    for the split [train]; the L1 and PSNR it shows are averages, so they
    lie inside every interval that holds the per-view values. *)
Theorem training_report_prints tb iteration Ll1 loss elapsed testing test train
    total_points evs i name l1_test psnr_test :
  training_report image_name l1_of psnr_of tb iteration Ll1 loss elapsed testing
    test train total_points = Some evs ->
  In (PrintLine i name l1_test psnr_test) evs ->
  i = iteration /\ In iteration testing /\
  ((name = "test"%string /\ test <> []) \/ name = "train"%string) /\
  (forall lo hi, (forall c, lo <= l1_of c /\ l1_of c <= hi)%Q ->
                 (lo <= l1_test /\ l1_test <= hi)%Q) /\
  (forall lo hi, (forall c, lo <= psnr_of c /\ psnr_of c <= hi)%Q ->
                 (lo <= psnr_test /\ psnr_test <= hi)%Q).
Proof.
  unfold training_report. intros H Hin.
  assert (Hs : forall (b : bool),
    ~ In (PrintLine i name l1_test psnr_test)
        (if b then [AddScalar "train_loss_patches/l1_loss" Ll1 iteration;
                    AddScalar "train_loss_patches/total_loss" loss iteration;
                    AddScalar "iter_time" elapsed iteration]
         else [])).
  { intros [|]; simpl; intuition discriminate. }
  destruct (mem iteration testing) eqn:Hm.
  - apply bind_Some in H. destruct H as [sampled [Hsam H]].
    injection H as <-. rewrite !in_app_iff in Hin.
    destruct Hin as [Hin|[Hin|[Hin|Hin]]].
    + exfalso. exact (Hs _ Hin).
    + apply evaluate_print in Hin. destruct Hin as (Hne & -> & -> & -> & ->).
      split; [reflexivity|]. split; [now apply mem_In|].
      split; [left; auto|].
      split; intros lo hi Hb; now apply average_bounds.
    + apply evaluate_print in Hin. destruct Hin as (Hne & -> & -> & -> & ->).
      split; [reflexivity|]. split; [now apply mem_In|].
      split; [right; reflexivity|].
      split; intros lo hi Hb; now apply average_bounds.
    + exfalso. destruct tb; simpl in Hin; intuition discriminate.
  - injection H as <-. exfalso. exact (Hs _ Hin).
Qed.

(** X22: a report raises exactly at a testing iteration of a scene without
    training cameras, whether or not there are test cameras. *)
Theorem training_report_raises_iff tb iteration Ll1 loss elapsed testing test train
    total_points :
  training_report image_name l1_of psnr_of tb iteration Ll1 loss elapsed testing
    test train total_points = None <->
  In iteration testing /\ train = [].
Proof.
  unfold training_report. rewrite <- mem_In.
  destruct (mem iteration testing).
  - destruct train as [|c train].
    + simpl. split; auto.
    + destruct (sample_at_spec (c :: train) [5; 10; 15; 20; 25]) as (r & Hr & _);
        [discriminate|].
      unfold sampled_train_cameras. rewrite Hr. simpl.
      split; [discriminate|intros [_ H]; discriminate].
  - split; [discriminate|intros [H _]; discriminate].
Qed.

End ReportFacts.

Lemma sampled_train_cameras_spec_witness :
  exists five,
    sampled_train_cameras [0; 1; 2; 3; 4; 5; 6] = Some five /\
    List.length five = 5%nat /\
    (forall k, (k < 5)%nat ->
       nth_error five k
       = nth_error [0; 1; 2; 3; 4; 5; 6]
           (Z.to_nat ((5 * (Z.of_nat k + 1))
                      mod Z.of_nat (List.length [0; 1; 2; 3; 4; 5; 6])))) /\
    Forall (fun c => In c [0; 1; 2; 3; 4; 5; 6]) five /\
    (5 mod Z.of_nat (List.length [0; 1; 2; 3; 4; 5; 6]) = 0 ->
     Forall (fun c => nth_error [0; 1; 2; 3; 4; 5; 6] 0 = Some c) five).
Proof.
  apply (proj2 (sampled_train_cameras_spec [0; 1; 2; 3; 4; 5; 6])).
  discriminate.
Defined.

Lemma training_report_prints_witness :
  7000 = 7000 /\ In 7000 [7000; 30000] /\
  (("train"%string = "test"%string /\ @nil Z <> []) \/ "train"%string = "train"%string) /\
  (forall lo hi, (forall c, lo <= inject_Z c /\ inject_Z c <= hi)%Q ->
                 (lo <= 19 # 5 /\ 19 # 5 <= hi)%Q) /\
  (forall lo hi, (forall c : Z, lo <= 30 /\ 30 <= hi)%Q ->
                 (lo <= 150 # 5 /\ 150 # 5 <= hi)%Q).
Proof.
  apply (training_report_prints (fun _ : Z => "v"%string) (fun c => inject_Z c)
           (fun _ => 30%Q) false 7000 1 2 3 [7000; 30000] [] [0; 1; 2; 3; 4; 5; 6]
           100 [PrintLine 7000 "train" (19 # 5) (150 # 5)] 7000 "train" (19 # 5)
           (150 # 5)).
  - vm_compute. reflexivity.
  - simpl. left. reflexivity.
Defined.

End ReportFacts.

(** ** The last iteration inside the growth window *)

Module FinalIterationExamples.

(** C10 as stated fails: with 7000 iterations and the growth window open
    until 15000, the last iteration calls [densify_and_prune] after its
    backward pass; a primitive whose screen-space gradient of that pass is 1
    is cloned and one whose gradient is 0 is not, so the checkpoint of the
    last iteration holds two primitives in one case and one in the other. *)
Lemma final_checkpoint_depends_on_last_gradient :
  ~ (forall opt white saving ckpt (inp : IterInput unit) lg wg vg s s1 s2 evs1 evs2
            c1 c2,
       Growth.train_iteration opt white saving ckpt (iterations opt) inp s
       = Some (s1, evs1) ->
       Growth.train_iteration opt white saving ckpt (iterations opt)
         (with_backward inp lg wg vg) s = Some (s2, evs2) ->
       In (Checkpoint c1 (iterations opt)) evs1 ->
       In (Checkpoint c2 (iterations opt)) evs2 ->
       params c1 = params c2).
Proof.
  intros H.
  specialize (H Growth.short_opt false [7000] [7000] Growth.inp tt tt [1%Q]
                Growth.s0 _ _ _ _
                (mkGaussians [7] [0] [0%Q] [0])
                (mkGaussians [7; 7] [0; 0] [0%Q; 0%Q] [0; 0])
                eq_refl eq_refl).
  assert (Hp : [7] = [7; 7]).
  { apply H; simpl; right; right; left; reflexivity. }
  discriminate Hp.
Qed.

End FinalIterationExamples.
